(** * UCC-Bridge relayer: a shallow embedding of the relay engine

    The development follows the backend sources of the bridge:
    - [state.js]              the [StateManager] persisted in relayer-state.json
    - [process-deposit.js]    [processDepositByTxHash]   (BSC -> UC, on demand)
    - [process-withdrawal.js] [processWithdrawalByTxHash] (UC -> BSC, on demand)
    - [relayer.js]            [BridgeRelayer]: endpoint rotation, the two
                              polling loops and their event handlers
    - the service entry point, with the HTTP control surface

    Conventions.  Block heights and token amounts are [Z]; amounts are
    BigInt values decoded from a uint256, so [0 <= amount < 2^256].
    Event identifiers are the strings [depositId.toString()] /
    [burnId.toString()].  Calls that leave the process (JSON-RPC, contract
    calls, timers, the state file) are recorded in a trace of [Effect]s, in
    program order; what the outside world answers is an explicit argument of
    each function.  Logging and wall-clock stamps ([lastSaved], [startedAt],
    [timestamp], elapsed times) carry no control flow and are left out. *)

From Stdlib Require Import ZArith Ascii.
From stdpp Require Import base numbers strings pretty list gmap.

Open Scope Z_scope.

(** ** JavaScript values, as [JSON.parse] produces them

    Of a number the relayer only asks whether it is zero (in [!txHash]),
    so numbers are kept as integers. *)

#[warnings="-register-all"]
Inductive JsVal : Type :=
  | JNull
  | JBool (b : bool)
  | JNum (z : Z)
  | JStr (s : string)
  | JArr (items : list JsVal)
  | JObj (fields : list (string * JsVal)).

(** [!v] is false for truthy values; [undefined] is [None] at use sites. *)
Definition truthy (v : JsVal) : bool :=
  match v with
  | JNull => false
  | JBool b => b
  | JNum z => negb (z =? 0)
  | JStr s => negb (String.eqb s "")
  | JArr _ | JObj _ => true
  end.

Definition truthy_opt (v : option JsVal) : bool :=
  match v with
  | None => false
  | Some v => truthy v
  end.

Fixpoint assoc (k : string) (fields : list (string * JsVal)) : option JsVal :=
  match fields with
  | [] => None
  | (k', v) :: rest => if String.eqb k k' then Some v else assoc k rest
  end.

(** [v.k]: a TypeError on [null], the field on an object, [undefined]
    on the other values the relayer meets. *)
Definition getProp (v : JsVal) (k : string) : option (option JsVal) :=
  match v with
  | JNull => None
  | JObj fields => Some (assoc k fields)
  | _ => Some None
  end.

(** [x.length]: a TypeError when [x] is [undefined] or [null]. *)
Definition lengthReadable (x : option JsVal) : bool :=
  match x with
  | None | Some JNull => false
  | Some _ => true
  end.

(** ** String primitives used by the gateway and the error classifier

    A string stands for the UTF-8 text of the JS string; a request body is
    what [chunk.toString()] decoded from the bytes on the wire.  The ASCII
    characters are the one-byte code points and their bytes occur in no
    other code point, so [charAt] compared with a quote, [slice(1, -1)]
    between two quotes, and [includes], [split] and [replace] with ASCII
    patterns read on the bytes as they do on the UTF-16 code units. *)

Module Str.

Fixpoint startsWith (p s : string) : bool :=
  match p, s with
  | EmptyString, _ => true
  | String a p', String b s' => if Ascii.eqb a b then startsWith p' s' else false
  | String _ _, EmptyString => false
  end.

(** [s.includes(sub)] *)
Fixpoint includes (s sub : string) : bool :=
  if startsWith sub s then true
  else match s with
       | EmptyString => false
       | String _ s' => includes s' sub
       end.

(** White space in the sense of [String.prototype.trim]: the WhiteSpace
    and LineTerminator code points of ECMAScript, in UTF-8.  One byte:
    U+0009 .. U+000D and U+0020. *)
Definition isSpace (a : ascii) : bool :=
  let n := nat_of_ascii a in
  ((9 <=? n) && (n <=? 13) || (n =? 32))%nat.

(** Two bytes: U+00A0 (C2 A0). *)
Definition isSpace2 (a b : ascii) : bool :=
  ((nat_of_ascii a =? 194) && (nat_of_ascii b =? 160))%nat.

(** Three bytes: U+1680 (E1 9A 80), U+2000 .. U+200A (E2 80 80 .. 8A),
    U+2028 and U+2029 (E2 80 A8, A9), U+202F (E2 80 AF), U+205F (E2 81 9F),
    U+3000 (E3 80 80) and U+FEFF (EF BB BF). *)
Definition isSpace3 (a b c : ascii) : bool :=
  let x := nat_of_ascii a in
  let y := nat_of_ascii b in
  let z := nat_of_ascii c in
  ((x =? 225) && (y =? 154) && (z =? 128)
   || (x =? 226) && (y =? 128)
      && ((128 <=? z) && (z <=? 138) || (z =? 168) || (z =? 169) || (z =? 175))
   || (x =? 226) && (y =? 129) && (z =? 159)
   || (x =? 227) && (y =? 128) && (z =? 128)
   || (x =? 239) && (y =? 187) && (z =? 191))%nat.

Fixpoint trimStart (s : string) : string :=
  match s with
  | EmptyString => EmptyString
  | String a s1 =>
      if isSpace a then trimStart s1
      else
        match s1 with
        | EmptyString => s
        | String b s2 =>
            if isSpace2 a b then trimStart s2
            else
              match s2 with
              | EmptyString => s
              | String c s3 => if isSpace3 a b c then trimStart s3 else s
              end
        end
  end.

(** Nothing but white space. *)
Definition blank (s : string) : bool :=
  match trimStart s with
  | EmptyString => true
  | String _ _ => false
  end.

Fixpoint trimEnd (s : string) : string :=
  match s with
  | EmptyString => EmptyString
  | String a s' => if blank s then EmptyString else String a (trimEnd s')
  end.

(** [s.trim()] *)
Definition trim (s : string) : string := trimEnd (trimStart s).

(** [s.charAt(0)] and [s.charAt(s.length - 1)]; [None] is the empty string. *)
Definition firstChar (s : string) : option ascii :=
  match s with
  | EmptyString => None
  | String a _ => Some a
  end.

Fixpoint lastChar (s : string) : option ascii :=
  match s with
  | EmptyString => None
  | String a EmptyString => Some a
  | String _ s' => lastChar s'
  end.

Fixpoint dropLast (s : string) : string :=
  match s with
  | EmptyString | String _ EmptyString => EmptyString
  | String a s' => String a (dropLast s')
  end.

(** [s.slice(1, -1)] *)
Definition slice_1_m1 (s : string) : string :=
  match s with
  | EmptyString => EmptyString
  | String _ s' => dropLast s'
  end.

(** [s.replace(/[{}]/g, '')] *)
Fixpoint removeBraces (s : string) : string :=
  match s with
  | EmptyString => EmptyString
  | String a s' =>
      if (Ascii.eqb a "{" || Ascii.eqb a "}")%char
      then removeBraces s'
      else String a (removeBraces s')
  end.

(** [s.split(sep)] for a one-character separator: never empty. *)
Fixpoint split (sep : ascii) (s : string) : list string :=
  match s with
  | EmptyString => [EmptyString]
  | String a s' =>
      if Ascii.eqb a sep then EmptyString :: split sep s'
      else match split sep s' with
           | [] => [String a EmptyString]
           | p :: ps => String a p :: ps
           end
  end.

End Str.

(** ** The effect trace and the program monad *)

Inductive Chain := BSC | UC.

Inductive Direction := DirDeposit | DirBurn.

(** One entry of [state.transactionHashes]. *)
Record TxHashes := mkTxHashes {
  txType : Direction;
  sourceTxHash : JsVal;
  destTxHash : option string;
  sourceChain : Chain;
  destChain : Chain
}.

(** [state.transactionHashes] is a plain object indexed with the id, so a
    read goes up the prototype chain and an assignment under the name
    '__proto__' replaces the prototype:
    - [ownEntries]: the own properties, one entry per id;
    - [protoEntry]: the entry assigned under '__proto__' when the object
      had no own property of that name ([None]: the prototype is still
      [Object.prototype]);
    - [objectPrototypeDest]: [Object.prototype.destTxHash], which
      [updateDestTxHash('__proto__', ...)] creates.  It belongs to the
      process, not to the object; it is kept here because only that method
      of this object can set it and the object is never replaced. *)
Record TxObject := mkTxObject {
  ownEntries : gmap string TxHashes;
  protoEntry : option TxHashes;
  objectPrototypeDest : option string
}.

(** [{}] *)
#[global] Instance TxObject_empty : Empty TxObject := mkTxObject ∅ None None.

(** The entry recorded under an id: what [obj[id]] gives when that is an
    entry object, its own one or, under '__proto__', the prototype. *)
#[global] Instance TxObject_lookup : Lookup string TxHashes TxObject :=
  λ id obj,
    match ownEntries obj !! id with
    | Some h => Some h
    | None => if String.eqb id "__proto__" then protoEntry obj else None
    end.

(** The function-valued properties of [Object.prototype]. *)
Definition objectPrototypeMethods : list string :=
  [ "constructor"; "hasOwnProperty"; "isPrototypeOf"; "propertyIsEnumerable";
    "toLocaleString"; "toString"; "valueOf";
    "__defineGetter__"; "__defineSetter__"; "__lookupGetter__"; "__lookupSetter__" ].

(** What [obj[id]] evaluates to. *)
Inductive Found :=
  | FoundEntry (h : TxHashes)
  | FoundObjectPrototype (dest : option string)  (* Object.prototype itself *)
  | FoundMethod (name : string)                  (* a function of Object.prototype *)
  | FoundValue (v : JsVal)                       (* a field of the prototype entry *)
  | FoundTimestamp                               (* its [timestamp], a positive number *)
  | NotFound.                                    (* undefined *)

Definition foundTruthy (f : Found) : bool :=
  match f with
  | FoundEntry _ | FoundObjectPrototype _ | FoundMethod _ | FoundTimestamp => true
  | FoundValue v => truthy v
  | NotFound => false
  end.

Definition directionName (d : Direction) : string :=
  match d with
  | DirDeposit => "deposit"
  | DirBurn => "burn"
  end.

Definition chainName (c : Chain) : string :=
  match c with
  | BSC => "BSC"
  | UC => "UC"
  end.

(** [entry[key]] for the own fields of an entry object. *)
Definition entryField (h : TxHashes) (key : string) : option Found :=
  if String.eqb key "type" then Some (FoundValue (JStr (directionName (txType h))))
  else if String.eqb key "sourceTxHash" then Some (FoundValue (sourceTxHash h))
  else if String.eqb key "destTxHash" then
    Some (FoundValue (match destTxHash h with Some d => JStr d | None => JNull end))
  else if String.eqb key "sourceChain" then Some (FoundValue (JStr (chainName (sourceChain h))))
  else if String.eqb key "destChain" then Some (FoundValue (JStr (chainName (destChain h))))
  else if String.eqb key "timestamp" then Some FoundTimestamp
  else None.

(** [Object.prototype[key]] for a key other than '__proto__'. *)
Definition objectPrototypeField (dest : option string) (key : string) : Found :=
  if bool_decide (key ∈ objectPrototypeMethods) then FoundMethod key
  else if String.eqb key "destTxHash" then
    match dest with
    | Some d => FoundValue (JStr d)
    | None => NotFound
    end
  else NotFound.

(** [obj[id]]: the own property, else the prototype chain;
    '__proto__' reads the prototype itself. *)
Definition jsGet (obj : TxObject) (id : string) : Found :=
  match ownEntries obj !! id with
  | Some h => FoundEntry h
  | None =>
      if String.eqb id "__proto__" then
        match protoEntry obj with
        | Some h => FoundEntry h
        | None => FoundObjectPrototype (objectPrototypeDest obj)
        end
      else
        match protoEntry obj with
        | Some h =>
            match entryField h id with
            | Some f => f
            | None => objectPrototypeField (objectPrototypeDest obj) id
            end
        | None => objectPrototypeField (objectPrototypeDest obj) id
        end
  end.

(** [obj[id] = entry]: an own property is written, except that
    '__proto__', when it is not an own property, sets the prototype. *)
Definition jsSet (id : string) (entry : TxHashes) (obj : TxObject) : TxObject :=
  let written := mkTxObject (<[id := entry]> (ownEntries obj)) (protoEntry obj)
                            (objectPrototypeDest obj) in
  match ownEntries obj !! id with
  | Some _ => written
  | None =>
      if String.eqb id "__proto__"
      then mkTxObject (ownEntries obj) (Some entry) (objectPrototypeDest obj)
      else written
  end.

(** [o[key] = v] on the fields of a parsed object: an existing field is
    replaced in place, a new one is added at the end. *)
Fixpoint setField (key : string) (v : JsVal) (fields : list (string * JsVal))
    : list (string * JsVal) :=
  match fields with
  | [] => [(key, v)]
  | (k, w) :: rest =>
      if String.eqb k key then (k, v) :: rest else (k, w) :: setField key v rest
  end.

(** The object held in [StateManager.state].  [transactionHashes] may be
    missing in a file written by an older version, hence the option.  The
    state is taken to have the shape [saveState] writes: cursors that are
    numbers or null, lists of strings, an object of entries. *)
Record State := mkState {
  lastBscBlock : option Z;
  lastUcBlock : option Z;
  processedDeposits : list string;
  processedBurns : list string;
  transactionHashes : option TxObject
}.

(** [JSON.stringify(state)]: of [transactionHashes] the own properties
    are written, not what is on its prototype chain. *)
Definition fileImage (s : State) : State :=
  mkState (lastBscBlock s) (lastUcBlock s) (processedDeposits s) (processedBurns s)
          ((λ obj, mkTxObject (ownEntries obj) None None) <$> transactionHashes s).

(** The processed list of a direction. *)
Definition processedOf (d : Direction) (s : State) : list string :=
  match d with
  | DirDeposit => processedDeposits s
  | DirBurn => processedBurns s
  end.

Inductive Effect :=
  | GetTransactionReceipt (c : Chain) (txHash : JsVal)
  | GetBlockNumber (c : Chain)
  | QueryFilter (c : Chain) (fromBlock toBlock : Z)
  | Sleep (ms : Z)
  | Mint (to : string) (amount : Z) (depositId : string)
  | Unlock (to : string) (amount : Z) (burnId : string)
  | TxWait (c : Chain)
  | WriteStateFile (snapshot : State)
  | ConnectBsc (rpc : string).

(** What an awaited call gives back: a value, or a thrown [Error] with
    its message. *)
Inductive Rpc (A : Type) :=
  | Ok (a : A)
  | Throws (message : string).
Arguments Ok {A} a.
Arguments Throws {A} message.

(** A computation over a mutable store [S]: the effects it performed, the
    store it leaves, and either the thrown error message or the value.
    Effects and store updates made before a throw are kept. *)
Definition M (S A : Type) : Type := S -> list Effect * S * (string + A).

Module MonadM.

Definition ret {S A} (a : A) : M S A := fun s => ([], s, inr a).

Definition bind {S A B} (m : M S A) (k : A -> M S B) : M S B :=
  fun s =>
    match m s with
    | (t1, s1, inl e) => (t1, s1, inl e)
    | (t1, s1, inr a) =>
        match k a s1 with
        | (t2, s2, r) => (t1 ++ t2, s2, r)
        end
    end.

Definition throw {S A} (message : string) : M S A := fun s => ([], s, inl message).

(** [try { m } catch (error) { h error }] *)
Definition tryCatch {S A} (m : M S A) (h : string -> M S A) : M S A :=
  fun s =>
    match m s with
    | (t1, s1, inl e) =>
        match h e s1 with
        | (t2, s2, r) => (t1 ++ t2, s2, r)
        end
    | r => r
    end.

Definition get {S} : M S S := fun s => ([], s, inr s).
Definition put {S} (s' : S) : M S unit := fun _ => ([], s', inr tt).
Definition modify {S} (f : S -> S) : M S unit := fun s => ([], f s, inr tt).

(** Perform an external effect that cannot fail here. *)
Definition emit {S} (e : Effect) : M S unit := fun s => ([e], s, inr tt).

(** [await call]: record the call, then return or throw what the world
    answered. *)
Definition await {S A} (e : Effect) (answer : Rpc A) : M S A :=
  fun s =>
    match answer with
    | Ok a => ([e], s, inr a)
    | Throws msg => ([e], s, inl msg)
    end.

(** Run a computation on the component [proj s] of a larger store. *)
Definition zoom {S T A} (proj : S -> T) (upd : T -> S -> S) (m : M T A) : M S A :=
  fun s =>
    match m (proj s) with
    | (t, s1, r) => (t, upd s1 s, r)
    end.

(** [for (const x of xs) { await body(x) }] *)
Fixpoint forEach {S A} (body : A -> M S unit) (xs : list A) : M S unit :=
  match xs with
  | [] => ret tt
  | x :: rest => bind (body x) (fun _ => forEach body rest)
  end.

End MonadM.
Import MonadM.

Declare Scope prog_scope.
Delimit Scope prog_scope with prog.
Notation "x <- m ;; k" := (bind m (fun x => k))
  (at level 100, m at next level, right associativity) : prog_scope.
Notation "m ;; k" := (bind m (fun _ => k))
  (at level 100, right associativity) : prog_scope.
Open Scope prog_scope.

Definition trace {S A} (r : list Effect * S * (string + A)) : list Effect := r.1.1.
Definition store {S A} (r : list Effect * S * (string + A)) : S := r.1.2.
Definition outcome {S A} (r : list Effect * S * (string + A)) : string + A := r.2.

(** ** state.js: the StateManager *)

Module StateManager.

(** The object literal returned by [loadState] for a new state file. *)
Definition freshState : State :=
  {| lastBscBlock := None; lastUcBlock := None;
     processedDeposits := []; processedBurns := [];
     transactionHashes := Some ∅ |}.

(** [fs.writeFileSync(STATE_FILE, JSON.stringify(this.state))].  The
    effect is the call with the document handed over; whether the write
    lands is not known to the program, which catches and logs a failure
    and goes on. *)
Definition saveState : M State unit :=
  s <- get ;; emit (WriteStateFile (fileImage s)).

Definition setLastBscBlock (block : Z) : M State unit :=
  modify (fun s => mkState (Some block) (lastUcBlock s) (processedDeposits s)
                           (processedBurns s) (transactionHashes s)) ;;
  saveState.

Definition setLastUcBlock (block : Z) : M State unit :=
  modify (fun s => mkState (lastBscBlock s) (Some block) (processedDeposits s)
                           (processedBurns s) (transactionHashes s)) ;;
  saveState.

(** [l.slice(-n)] for [n > 0]: the last [n] entries. *)
Definition sliceLast (n : Z) (l : list string) : list string :=
  drop (Z.to_nat (Z.of_nat (length l) - n)) l.

(** [l.push(id); if (l.length > 10000) l = l.slice(-10000)] *)
Definition pushBounded (id : string) (l : list string) : list string :=
  let l' := l ++ [id] in
  if Z.of_nat (length l') >? 10000 then sliceLast 10000 l' else l'.

Definition addProcessedDeposit (depositId : string) : M State unit :=
  s <- get ;;
  if decide (depositId ∈ processedDeposits s) then ret tt
  else
    put (mkState (lastBscBlock s) (lastUcBlock s)
                 (pushBounded depositId (processedDeposits s))
                 (processedBurns s) (transactionHashes s)) ;;
    saveState.

Definition addProcessedBurn (burnId : string) : M State unit :=
  s <- get ;;
  if decide (burnId ∈ processedBurns s) then ret tt
  else
    put (mkState (lastBscBlock s) (lastUcBlock s) (processedDeposits s)
                 (pushBounded burnId (processedBurns s))
                 (transactionHashes s)) ;;
    saveState.

Definition isDepositProcessed (depositId : string) : M State bool :=
  s <- get ;; ret (bool_decide (depositId ∈ processedDeposits s)).

Definition isBurnProcessed (burnId : string) : M State bool :=
  s <- get ;; ret (bool_decide (burnId ∈ processedBurns s)).

Definition getLastBscBlock : M State (option Z) := s <- get ;; ret (lastBscBlock s).
Definition getLastUcBlock : M State (option Z) := s <- get ;; ret (lastUcBlock s).

Definition withTransactionHashes (obj : TxObject) (s : State) : State :=
  mkState (lastBscBlock s) (lastUcBlock s) (processedDeposits s) (processedBurns s)
          (Some obj).

(** [if (!this.state.transactionHashes) this.state.transactionHashes = {};
    this.state.transactionHashes[id] = entry] *)
Definition setTxHashes (id : string) (h : TxHashes) (s : State) : State :=
  withTransactionHashes (jsSet id h (default ∅ (transactionHashes s))) s.

Definition addDepositTxHashes (depositId : string) (bscTxHash : JsVal)
    (ucTxHash : option string) : M State unit :=
  modify (setTxHashes depositId (mkTxHashes DirDeposit bscTxHash ucTxHash BSC UC)) ;;
  saveState.

Definition addBurnTxHashes (burnId : string) (ucTxHash : JsVal)
    (bscTxHash : option string) : M State unit :=
  modify (setTxHashes burnId (mkTxHashes DirBurn ucTxHash bscTxHash UC BSC)) ;;
  saveState.

Definition withDest (dest : string) (h : TxHashes) : TxHashes :=
  mkTxHashes (txType h) (sourceTxHash h) (Some dest) (sourceChain h) (destChain h).

(** The TypeError of an assignment to a property of a primitive value
    (the module is strict code). *)
Definition cannotCreateProperty (kind shown : string) : string :=
  "Cannot create property 'destTxHash' on " +:+ kind +:+ " '" +:+ shown +:+ "'".

(** [this.state.transactionHashes[idStr].destTxHash = destTxHash], by what
    the read found. *)
Definition setDestOn (id dest : string) (obj : TxObject) (found : Found)
    : string + TxObject :=
  match found with
  | FoundEntry h => inr (jsSet id (withDest dest h) obj)
  | FoundObjectPrototype _ =>
      inr (mkTxObject (ownEntries obj) (protoEntry obj) (Some dest))
  | FoundMethod _ => inr obj          (* the property is put on the function *)
  | FoundValue (JObj fields) =>
      (* the source hash of the prototype entry is an object *)
      inr (mkTxObject (ownEntries obj)
             ((λ h, mkTxHashes (txType h) (JObj (setField "destTxHash" (JStr dest) fields))
                               (destTxHash h) (sourceChain h) (destChain h))
                <$> protoEntry obj)
             (objectPrototypeDest obj))
  | FoundValue (JArr _) => inr obj    (* a named property, which JSON does not show *)
  | FoundValue (JStr s) => inl (cannotCreateProperty "string" s)
  | FoundValue (JNum z) => inl (cannotCreateProperty "number" (pretty z))
  | FoundValue (JBool b) =>
      inl (cannotCreateProperty "boolean" (if b then "true" else "false"))
  | FoundValue JNull | NotFound => inr obj
  | FoundTimestamp => inl "Cannot create property 'destTxHash' on number"
  end.

Definition updateDestTxHash (id : string) (dest : string) : M State unit :=
  s <- get ;;
  let obj := default ∅ (transactionHashes s) in
  put (withTransactionHashes obj s) ;;
  let found := jsGet obj id in
  if foundTruthy found then
    match setDestOn id dest obj found with
    | inr obj' => put (withTransactionHashes obj' s) ;; saveState
    | inl typeError => throw typeError
    end
  else ret tt.

(** [getTransactionHashes]: [obj[idStr] || null]; [NotFound] is [null]. *)
Definition getTransactionHashes (id : string) : M State Found :=
  s <- get ;;
  match transactionHashes s with
  | None => ret NotFound
  | Some obj =>
      let found := jsGet obj id in
      ret (if foundTruthy found then found else NotFound)
  end.

(** What [fs.existsSync] / [fs.readFileSync] find on disk. *)
Inductive StateFile :=
  | Missing
  | Unreadable (message : string)
  | Contents (data : string).

(** [loadState] returns the parsed document as it is, without checking its
    shape, or else the fresh object literal. *)
Inductive Loaded :=
  | FromFile (state : JsVal)
  | Fresh (state : State).

Section Load.

(** [JSON.parse]; [None] when it throws a SyntaxError. *)
Variable JSON_parse : string -> option JsVal.

(** The [try] block: [inl] is a throw, [inr (Some state)] the early
    [return state], [inr None] falling out of the [if]. *)
Definition tryLoad (f : StateFile) : string + option JsVal :=
  match f with
  | Missing => inr None
  | Unreadable message => inl message
  | Contents data =>
      match JSON_parse data with
      | None => inl "Unexpected token in JSON"
      | Some state =>
          (* the log line reads state.lastSaved,
             state.processedDeposits.length, state.processedBurns.length *)
          match getProp state "lastSaved",
                getProp state "processedDeposits",
                getProp state "processedBurns" with
          | Some _, Some deposits, Some burns =>
              if lengthReadable deposits && lengthReadable burns
              then inr (Some state)
              else inl "Cannot read properties of undefined (reading 'length')"
          | _, _, _ => inl "Cannot read properties of null"
          end
      end
  end.

Definition loadState (f : StateFile) : Loaded :=
  match tryLoad f with
  | inr (Some state) => FromFile state
  | inr None | inl _ => Fresh freshState
  end.

End Load.

(** The mutating calls of the class, as data, to speak about sequences. *)
Inductive Op :=
  | OpSetLastBscBlock (block : Z)
  | OpSetLastUcBlock (block : Z)
  | OpAddProcessedDeposit (id : string)
  | OpAddProcessedBurn (id : string)
  | OpAddDepositTxHashes (id : string) (src : JsVal) (dst : option string)
  | OpAddBurnTxHashes (id : string) (src : JsVal) (dst : option string)
  | OpUpdateDestTxHash (id : string) (dst : string).

Definition runOp (o : Op) : M State unit :=
  match o with
  | OpSetLastBscBlock b => setLastBscBlock b
  | OpSetLastUcBlock b => setLastUcBlock b
  | OpAddProcessedDeposit id => addProcessedDeposit id
  | OpAddProcessedBurn id => addProcessedBurn id
  | OpAddDepositTxHashes id src dst => addDepositTxHashes id src dst
  | OpAddBurnTxHashes id src dst => addBurnTxHashes id src dst
  | OpUpdateDestTxHash id dst => updateDestTxHash id dst
  end.

Definition runOps (ops : list Op) : M State unit := forEach runOp ops.

Definition isAdd (d : Direction) (o : Op) : bool :=
  match d, o with
  | DirDeposit, OpAddProcessedDeposit _ => true
  | DirBurn, OpAddProcessedBurn _ => true
  | _, _ => false
  end.

(** How many calls of [ops] add to the processed list of [d]. *)
Definition adds (d : Direction) (ops : list Op) : nat := length (List.filter (isAdd d) ops).

(** [id] is one of the last [k] entries of [l]. *)
Definition amongLast (k : nat) (id : string) (l : list string) : Prop :=
  id ∈ drop (length l - k) l.

Definition hasTxHashes (id : string) (s : State) : Prop :=
  is_Some (default ∅ (transactionHashes s) !! id).

End StateManager.

(** ** Chain data *)

(** A raw log entry of a receipt. *)
Record Log := mkLog {
  logAddress : string;
  logTopics : list string;
  logData : string
}.

(** The arguments the relayer reads from a decoded [Deposit] or [Burn]
    event; [eventId] is [depositId] / [burnId]. *)
Record EventArgs := mkArgs {
  user : string;
  amount : Z;
  eventId : string;
  destinationAddress : string
}.

(** [ethers] LogDescription. *)
Record LogDescription := mkDesc {
  name : string;
  args : EventArgs
}.

(** What [interface.parseLog(log)] does: throw, return [null] (no fragment
    of the ABI matches), or return the decoded event. *)
Inductive Parse :=
  | ParseThrows
  | ParseNull
  | Parsed (d : LogDescription).

Record Receipt := mkReceipt {
  status : option Z;
  blockNumber : Z;
  logs : list Log
}.

(** An event object as [queryFilter] or a listener hands it over. *)
Record EventLog := mkEventLog {
  evArgs : EventArgs;
  transactionHash : string;
  evBlockNumber : Z
}.

(** The answers of the two chains to the calls of one pipeline run, in
    the order of use. *)
Record PipelineEnv := mkEnv {
  receiptAnswer : Rpc (option Receipt);  (* getTransactionReceipt *)
  headFirst : Rpc Z;                     (* getBlockNumber *)
  headSecond : Rpc Z;                    (* getBlockNumber after the sleep *)
  submitAnswer : Rpc string;             (* mint / unlock: hash of the sent tx *)
  waitAnswer : Rpc string                (* tx.wait(): hash in the receipt *)
}.

(** The object an on-demand pipeline returns; amounts are kept as
    integers instead of their [formatUnits] rendering. *)
Inductive Result :=
  | Completed (id : string) (sourceTx : JsVal) (destTx : string)
              (net original fee : Z) (recipient : string)
  | AlreadyProcessed (message : string)
  | Failed (error : string) (txHash : JsVal).

(** The [success] field of the returned object. *)
Definition success (r : Result) : bool :=
  match r with
  | Completed _ _ _ _ _ _ _ => true
  | AlreadyProcessed _ | Failed _ _ => false
  end.

(** ** Fee: [originalAmount / 100n] and [originalAmount - feeAmount] on BigInt *)

Definition feeAmount (originalAmount : Z) : Z := originalAmount ÷ 100.
Definition netAmount (originalAmount : Z) : Z := originalAmount - feeAmount originalAmount.

Definition requiredConfirmations : Z := 6.

(** The confirmation step, written out in each of the four pipelines with
    the chain's block time (3000 ms on BSC, 5000 ms on UC): one poll, at
    most one sleep and one more poll.  Returns [confirmations]. *)
Definition waitForConfirmations {S} (c : Chain) (blockTimeMs eventBlock : Z)
    (first second : Rpc Z) : M S Z :=
  currentBlock <- await (GetBlockNumber c) first ;;
  let confirmations := currentBlock - eventBlock in
  if confirmations <? requiredConfirmations then
    let blocksToWait := requiredConfirmations - confirmations in
    let waitTime := blocksToWait * blockTimeMs in
    emit (Sleep waitTime) ;;
    currentBlock <- await (GetBlockNumber c) second ;;
    ret (currentBlock - eventBlock)
  else ret confirmations.

Definition statusIsOne (r : Receipt) : bool := bool_decide (status r = Some 1).

Section Relay.

(** [bscBridge.interface.parseLog] / [ucBridge.interface.parseLog]; the
    ABIs live in abis.js. *)
Variable parseLog : Chain -> Log -> Parse.

(** [log => { try { return iface.parseLog(log) } catch { return null } }] *)
Definition parseOrNull (c : Chain) (log : Log) : option LogDescription :=
  match parseLog c log with
  | Parsed d => Some d
  | ParseNull | ParseThrows => None
  end.

(** [.find(e => e && e.name === expected)] *)
Definition findNamed (expected : string) (parsed : list (option LogDescription))
    : option LogDescription :=
  match List.find (fun e => match e with
                            | Some d => String.eqb (name d) expected
                            | None => false
                            end) parsed with
  | Some (Some d) => Some d
  | _ => None
  end.

(** *** process-deposit.js

    The configuration is taken as valid: building the providers, the
    wallet and the contract objects at the head of each pipeline does not
    throw. *)

Definition processDepositByTxHash (env : PipelineEnv) (bscTxHash : JsVal)
    : M State Result :=
  tryCatch
    (receipt <- await (GetTransactionReceipt BSC bscTxHash) (receiptAnswer env) ;;
     match receipt with
     | None => throw "Transaction receipt not found"
     | Some receipt =>
         if negb (statusIsOne receipt) then throw "Transaction failed on BSC"
         else
           match findNamed "Deposit" (List.map (parseOrNull BSC) (logs receipt)) with
           | None => throw "Deposit event not found in transaction"
           | Some depositEvent =>
               let a := args depositEvent in
               processed <- StateManager.isDepositProcessed (eventId a) ;;
               if processed : bool
               then ret (AlreadyProcessed "Deposit already processed")
               else
                 confirmations <- waitForConfirmations BSC 3000 (blockNumber receipt)
                                    (headFirst env) (headSecond env) ;;
                 let originalAmount := amount a in
                 let fee := feeAmount originalAmount in
                 let net := netAmount originalAmount in
                 mintTx <- await (Mint (destinationAddress a) net (eventId a))
                                 (submitAnswer env) ;;
                 ucReceipt <- await (TxWait UC) (waitAnswer env) ;;
                 StateManager.addProcessedDeposit (eventId a) ;;
                 StateManager.addDepositTxHashes (eventId a) bscTxHash (Some ucReceipt) ;;
                 ret (Completed (eventId a) bscTxHash ucReceipt net originalAmount fee
                                (destinationAddress a))
           end
     end)
    (* the handler reads the undeclared identifier [event] while building
       its log entry: a ReferenceError leaves the function *)
    (fun error => throw "event is not defined").

(** *** process-withdrawal.js *)

Definition processWithdrawalByTxHash (env : PipelineEnv) (ucTxHash : JsVal)
    : M State Result :=
  tryCatch
    (receipt <- await (GetTransactionReceipt UC ucTxHash) (receiptAnswer env) ;;
     match receipt with
     | None => throw "Transaction receipt not found"
     | Some receipt =>
         if negb (statusIsOne receipt) then throw "Transaction failed on UC"
         else
           match findNamed "Burn" (List.map (parseOrNull UC) (logs receipt)) with
           | None => throw "Burn event not found in transaction"
           | Some burnEvent =>
               let a := args burnEvent in
               processed <- StateManager.isBurnProcessed (eventId a) ;;
               if processed : bool
               then ret (AlreadyProcessed "Withdrawal already processed")
               else
                 confirmations <- waitForConfirmations UC 5000 (blockNumber receipt)
                                    (headFirst env) (headSecond env) ;;
                 let originalAmount := amount a in
                 let fee := feeAmount originalAmount in
                 let net := netAmount originalAmount in
                 unlockTx <- await (Unlock (destinationAddress a) net (eventId a))
                                   (submitAnswer env) ;;
                 bscReceipt <- await (TxWait BSC) (waitAnswer env) ;;
                 StateManager.addProcessedBurn (eventId a) ;;
                 StateManager.addBurnTxHashes (eventId a) ucTxHash (Some bscReceipt) ;;
                 ret (Completed (eventId a) ucTxHash bscReceipt net originalAmount fee
                                (destinationAddress a))
           end
     end)
    (fun error => ret (Failed error ucTxHash)).

(** *** relayer.js: the BridgeRelayer object *)

Record Relayer := mkRelayer {
  processedDepositsSet : gset string;   (* this.processedDeposits *)
  processedBurnsSet : gset string;      (* this.processedBurns *)
  isRunning : bool;
  currentBscRpcIndex : nat;
  bscLastBlock : Z;
  ucLastBlock : Z;
  stateManager : State
}.

Definition bscRpcEndpoints : list string :=
  [ "https://bsc-dataseed1.binance.org";
    "https://bsc-dataseed2.binance.org";
    "https://bsc-dataseed3.binance.org";
    "https://bsc-dataseed4.binance.org";
    "https://bsc.publicnode.com";
    "https://bsc-rpc.publicnode.com" ].

Definition withStateManager {A} (m : M State A) : M Relayer A :=
  zoom stateManager
       (fun st r => mkRelayer (processedDepositsSet r) (processedBurnsSet r) (isRunning r)
                              (currentBscRpcIndex r) (bscLastBlock r) (ucLastBlock r) st)
       m.

Definition setRpcIndex (i : nat) (r : Relayer) : Relayer :=
  mkRelayer (processedDepositsSet r) (processedBurnsSet r) (isRunning r) i
            (bscLastBlock r) (ucLastBlock r) (stateManager r).

Definition setBscLastBlock (b : Z) (r : Relayer) : Relayer :=
  mkRelayer (processedDepositsSet r) (processedBurnsSet r) (isRunning r)
            (currentBscRpcIndex r) b (ucLastBlock r) (stateManager r).

Definition setUcLastBlock (b : Z) (r : Relayer) : Relayer :=
  mkRelayer (processedDepositsSet r) (processedBurnsSet r) (isRunning r)
            (currentBscRpcIndex r) (bscLastBlock r) b (stateManager r).

Definition markDeposit (id : string) (r : Relayer) : Relayer :=
  mkRelayer ({[id]} ∪ processedDepositsSet r) (processedBurnsSet r) (isRunning r)
            (currentBscRpcIndex r) (bscLastBlock r) (ucLastBlock r) (stateManager r).

Definition markBurn (id : string) (r : Relayer) : Relayer :=
  mkRelayer (processedDepositsSet r) ({[id]} ∪ processedBurnsSet r) (isRunning r)
            (currentBscRpcIndex r) (bscLastBlock r) (ucLastBlock r) (stateManager r).

Definition endpointAt (i : nat) : string := default "" (bscRpcEndpoints !! i).

Definition getNextBscRpc : M Relayer string :=
  r <- get ;;
  let i := ((currentBscRpcIndex r + 1) `mod` length bscRpcEndpoints)%nat in
  put (setRpcIndex i r) ;;
  ret (endpointAt i).

(** [createBscProvider], followed by the wallet and contract rebuilt on it. *)
Definition createBscProvider : M Relayer unit :=
  r <- get ;; emit (ConnectBsc (endpointAt (currentBscRpcIndex r))).

Definition handleBscDeposit (env : PipelineEnv) (event : EventLog) : M Relayer unit :=
  tryCatch
    (let a := evArgs event in
     let depositIdStr := eventId a in
     let txHash := JStr (transactionHash event) in
     r <- get ;;
     if decide (depositIdStr ∈ processedDepositsSet r) then ret tt
     else
       confirmations <- waitForConfirmations BSC 3000 (evBlockNumber event)
                          (headFirst env) (headSecond env) ;;
       receipt <- await (GetTransactionReceipt BSC txHash) (receiptAnswer env) ;;
       match receipt with
       | None => ret tt
       | Some receipt =>
           if negb (statusIsOne receipt) then ret tt
           else
             match findNamed "Deposit" (List.map (parseOrNull BSC) (logs receipt)) with
             | None => ret tt
             | Some verifiedEvent =>
                 let verifiedData := args verifiedEvent in
                 if negb (String.eqb (eventId verifiedData) depositIdStr) then ret tt
                 else
                   let originalAmount := amount verifiedData in
                   let net := netAmount originalAmount in
                   tx <- await (Mint (destinationAddress verifiedData) net
                                     (eventId verifiedData)) (submitAnswer env) ;;
                   ucReceipt <- await (TxWait UC) (waitAnswer env) ;;
                   modify (markDeposit depositIdStr) ;;
                   withStateManager (StateManager.addProcessedDeposit depositIdStr) ;;
                   withStateManager
                     (StateManager.addDepositTxHashes depositIdStr txHash (Some ucReceipt))
             end
       end)
    (fun error => ret tt).

Definition handleUcBurn (env : PipelineEnv) (event : EventLog) : M Relayer unit :=
  tryCatch
    (let a := evArgs event in
     let burnIdStr := eventId a in
     let txHash := JStr (transactionHash event) in
     r <- get ;;
     if decide (burnIdStr ∈ processedBurnsSet r) then ret tt
     else
       confirmations <- waitForConfirmations UC 5000 (evBlockNumber event)
                          (headFirst env) (headSecond env) ;;
       receipt <- await (GetTransactionReceipt UC txHash) (receiptAnswer env) ;;
       match receipt with
       | None => ret tt
       | Some receipt =>
           if negb (statusIsOne receipt) then ret tt
           else
             let originalAmount := amount a in
             let net := netAmount originalAmount in
             tx <- await (Unlock (destinationAddress a) net (eventId a))
                         (submitAnswer env) ;;
             bscReceipt <- await (TxWait BSC) (waitAnswer env) ;;
             modify (markBurn burnIdStr) ;;
             withStateManager (StateManager.addProcessedBurn burnIdStr) ;;
             withStateManager
               (StateManager.addBurnTxHashes burnIdStr txHash (Some bscReceipt))
       end)
    (fun error => ret tt).

(** The answers of the world to one pass of a polling loop; the i-th
    event of the queried block is handled against [handlerEnv i]. *)
Record IterationEnv := mkIter {
  headAnswer : Rpc Z;
  logsAnswer : Rpc (list EventLog);
  handlerEnv : nat -> PipelineEnv
}.

Definition indexed {A} (xs : list A) : list (nat * A) := imap pair xs.

Definition isRateLimit (message : string) : bool :=
  Str.includes message "rate limit" || Str.includes message "429".

Definition isNetwork (message : string) : bool :=
  Str.includes message "timeout" || Str.includes message "network".

(** [Math.min(5000 * Math.pow(2, consecutiveErrors - 1), 60000)] *)
Definition waitTime (consecutiveErrors : Z) : Z :=
  Z.min (5000 * 2 ^ (consecutiveErrors - 1)) 60000.

(** One pass of the [while (this.isRunning)] body of [monitorBscDeposits];
    [consecutiveErrors] is the loop's local counter, returned updated. *)
Definition monitorBscDepositsStep (env : IterationEnv) (consecutiveErrors : Z)
    : M Relayer Z :=
  tryCatch
    (currentBlock <- await (GetBlockNumber BSC) (headAnswer env) ;;
     r <- get ;;
     if currentBlock >? bscLastBlock r then
       let blocksBehind := currentBlock - bscLastBlock r in
       let toBlock := bscLastBlock r + 1 in
       events <- await (QueryFilter BSC toBlock toBlock) (logsAnswer env) ;;
       forEach (fun ie => handleBscDeposit (handlerEnv env ie.1) ie.2) (indexed events) ;;
       modify (setBscLastBlock toBlock) ;;
       withStateManager (StateManager.setLastBscBlock toBlock) ;;
       (if blocksBehind <=? 1 then emit (Sleep 5000) else ret tt) ;;
       ret 0
     else
       emit (Sleep 5000) ;;
       ret consecutiveErrors)
    (fun error =>
       let consecutiveErrors := consecutiveErrors + 1 in
       if isRateLimit error || Str.includes error "missing response" then
         newRpc <- getNextBscRpc ;;
         createBscProvider ;;
         emit (Sleep (waitTime consecutiveErrors)) ;;
         ret consecutiveErrors
       else if isNetwork error then
         emit (Sleep 10000) ;;
         ret consecutiveErrors
       else
         emit (Sleep 15000) ;;
         ret consecutiveErrors).

(** [monitorBscDeposits]: the loop runs one pass per element of [envs]. *)
Fixpoint monitorBscDeposits (envs : list IterationEnv) (consecutiveErrors : Z)
    : M Relayer Z :=
  match envs with
  | [] => ret consecutiveErrors
  | env :: rest =>
      r <- get ;;
      if isRunning r then
        n <- monitorBscDepositsStep env consecutiveErrors ;;
        monitorBscDeposits rest n
      else ret consecutiveErrors
  end.

Definition monitorUcBurnsStep (env : IterationEnv) : M Relayer unit :=
  tryCatch
    (currentBlock <- await (GetBlockNumber UC) (headAnswer env) ;;
     r <- get ;;
     if currentBlock >? ucLastBlock r then
       let blocksBehind := currentBlock - ucLastBlock r in
       let toBlock := ucLastBlock r + 1 in
       events <- await (QueryFilter UC toBlock toBlock) (logsAnswer env) ;;
       forEach (fun ie => handleUcBurn (handlerEnv env ie.1) ie.2) (indexed events) ;;
       modify (setUcLastBlock toBlock) ;;
       withStateManager (StateManager.setLastUcBlock toBlock) ;;
       (if blocksBehind <=? 1 then emit (Sleep 1000) else ret tt)
     else
       emit (Sleep 1000))
    (fun error =>
       if isRateLimit error then emit (Sleep 10000)
       else if isNetwork error then emit (Sleep 2000)
       else emit (Sleep 5000)).

Fixpoint monitorUcBurns (envs : list IterationEnv) : M Relayer unit :=
  match envs with
  | [] => ret tt
  | env :: rest =>
      r <- get ;;
      if isRunning r then monitorUcBurnsStep env ;; monitorUcBurns rest
      else ret tt
  end.

End Relay.

(** ** The entry point: the HTTP control surface *)

Record Server := mkServer {
  relayer : Relayer;            (* relayer.stateManager lives inside *)
  depositModule : State;        (* the stateManager of process-deposit.js *)
  withdrawalModule : State      (* the stateManager of process-withdrawal.js *)
}.

Inductive Payload :=
  | PError (error : string)
  | PResult (result : Result).

Record HttpResponse := mkResponse {
  statusCode : Z;
  payload : Payload
}.

Definition inDepositModule {A} (m : M State A) : M Server A :=
  zoom depositModule (fun st srv => mkServer (relayer srv) st (withdrawalModule srv)) m.

Definition inWithdrawalModule {A} (m : M State A) : M Server A :=
  zoom withdrawalModule (fun st srv => mkServer (relayer srv) (depositModule srv) st) m.

Section Gateway.

Variable JSON_parse : string -> option JsVal.
Variable parseLog : Chain -> Log -> Parse.

Definition singleQuote : ascii := "'"%char.
Definition doubleQuote : ascii := "034"%char.

(** "Force remove quotes if present" *)
Definition stripQuotes (cleanBody : string) : string :=
  let firstChar := Str.firstChar cleanBody in
  let lastChar := Str.lastChar cleanBody in
  if bool_decide (firstChar = Some singleQuote) && bool_decide (lastChar = Some singleQuote)
     || bool_decide (firstChar = Some doubleQuote) && bool_decide (lastChar = Some doubleQuote)
  then Str.slice_1_m1 cleanBody
  else cleanBody.

(** "Fallback to manual extraction for malformed JSON" *)
Definition manualExtract (cleanBody : string) : option JsVal :=
  if Str.includes cleanBody "txHash:" && Str.includes cleanBody "0x" then
    let withoutBraces := Str.removeBraces cleanBody in
    let parts := Str.split ":"%char withoutBraces in
    if (2 <=? length parts)%nat then
      match parts !! 1%nat with
      | Some p => Some (JStr (Str.trim p))
      | None => None
      end
    else None
  else None.

(** The value left in [txHash] when the extraction block is done;
    [None] stands for [null] and [undefined]. *)
Definition extractTxHash (body : string) : option JsVal :=
  let cleanBody := stripQuotes (Str.trim body) in
  match JSON_parse cleanBody with
  | Some parsed =>
      match getProp parsed "txHash" with
      | Some txHash => txHash
      | None => manualExtract cleanBody     (* parsed is null: TypeError *)
      end
  | None => manualExtract cleanBody
  end.

Definition respond (r : Result) : HttpResponse :=
  if success r then mkResponse 200 (PResult r) else mkResponse 400 (PResult r).

(** POST /api/process-deposit, the [req.on('end', ...)] callback. *)
Definition onProcessDeposit (env : PipelineEnv) (body : string) : M Server HttpResponse :=
  tryCatch
    (match extractTxHash body with
     | Some txHash =>
         if truthy txHash then
           result <- inDepositModule (processDepositByTxHash parseLog env txHash) ;;
           ret (respond result)
         else ret (mkResponse 400 (PError "Transaction hash required"))
     | None => ret (mkResponse 400 (PError "Transaction hash required"))
     end)
    (fun error => ret (mkResponse 500 (PError "Internal server error"))).

(** POST /api/process-withdrawal *)
Definition onProcessWithdrawal (env : PipelineEnv) (body : string) : M Server HttpResponse :=
  tryCatch
    (match extractTxHash body with
     | Some txHash =>
         if truthy txHash then
           result <- inWithdrawalModule (processWithdrawalByTxHash parseLog env txHash) ;;
           ret (respond result)
         else ret (mkResponse 400 (PError "Transaction hash required"))
     | None => ret (mkResponse 400 (PError "Transaction hash required"))
     end)
    (fun error => ret (mkResponse 500 (PError "Internal server error"))).

End Gateway.

(** ** Vocabulary for statements about runs *)

(** The destination-chain submission an effect is, if any. *)
Definition submitted (e : Effect) : option (Direction * string) :=
  match e with
  | Mint _ _ id => Some (DirDeposit, id)
  | Unlock _ _ id => Some (DirBurn, id)
  | _ => None
  end.

Definition isWrite (e : Effect) : Prop :=
  match e with
  | WriteStateFile _ => True
  | _ => False
  end.

Definition noSubmission (tr : list Effect) : Prop := Forall (λ e, submitted e = None) tr.
Definition noWrites (tr : list Effect) : Prop := Forall (λ e, ¬ isWrite e) tr.
Definition onlyWrites (tr : list Effect) : Prop := Forall isWrite tr.

(** The chain a direction submits to. *)
Definition destinationOf (d : Direction) : Chain :=
  match d with
  | DirDeposit => UC
  | DirBurn => BSC
  end.

(** The state the file holds after the effects [tr], when it held [s0]
    before them, every write of [tr] landed and no other state manager
    wrote in between. *)
Fixpoint persistedAfter (s0 : State) (tr : list Effect) : State :=
  match tr with
  | [] => s0
  | WriteStateFile snap :: rest => persistedAfter snap rest
  | _ :: rest => persistedAfter s0 rest
  end.

(** Mark-then-submit: at each submission of a run that started with the
    state [s0] on file, the id is in the processed list the file holds. *)
Definition MarkedBeforeSubmit (s0 : State) (tr : list Effect) : Prop :=
  ∀ pre e post d id,
    tr = pre ++ e :: post → submitted e = Some (d, id) →
    id ∈ processedOf d (persistedAfter s0 pre).

(** Submit-then-mark, the order of a run [tr] for direction [d]: either no
    submission and no write happen and [untouched] holds, or exactly one
    submission happens, for an id that is [unmarked] at the start and with
    nothing written before it; the run then stops at the submission or at
    the wait for its receipt with [untouched], or goes on with writes of the
    state file only, the last of which holds the id, and ends with the id
    [marked]. *)
Definition SubmitThenMark (d : Direction) (unmarked marked : string → Prop)
    (untouched : Prop) (tr : list Effect) : Prop :=
  (noSubmission tr ∧ noWrites tr ∧ untouched) ∨
  (∃ pre e id post,
      tr = pre ++ e :: post ∧ submitted e = Some (d, id) ∧
      noSubmission pre ∧ noWrites pre ∧ unmarked id ∧
      ((post = [] ∧ untouched) ∨
       (post = [TxWait (destinationOf d)] ∧ untouched) ∨
       (∃ writes snap,
           post = TxWait (destinationOf d) :: writes ∧ onlyWrites writes ∧
           last writes = Some (WriteStateFile snap) ∧ id ∈ processedOf d snap ∧
           marked id))).

(** The submission of direction [d]. *)
Definition submission (d : Direction) (to : string) (amount : Z) (id : string) : Effect :=
  match d with
  | DirDeposit => Mint to amount id
  | DirBurn => Unlock to amount id
  end.

(** A run acts on the decoded event [ev] only: whatever it submits is the
    call for [ev]'s recipient, net amount and id, and a completed result
    reports [ev]'s fields. *)
Definition UsesEvent (d : Direction) (ev : LogDescription) (tx : JsVal)
    (tr : list Effect) (out : string + Result) : Prop :=
  let a := args ev in
  Forall (λ e, submitted e = None ∨
               e = submission d (destinationAddress a) (netAmount (amount a)) (eventId a)) tr ∧
  ∀ id src dst net orig fee rcp,
    out = inr (Completed id src dst net orig fee rcp) →
    id = eventId a ∧ src = tx ∧ orig = amount a ∧ fee = feeAmount (amount a) ∧
    net = netAmount (amount a) ∧ rcp = destinationAddress a.

(** [RelayEngine.process(sourceTxHash, direction)]: the on-demand
    pipeline of a direction. *)
Definition process (parseLog : Chain → Log → Parse) (d : Direction)
    : PipelineEnv → JsVal → M State Result :=
  match d with
  | DirDeposit => processDepositByTxHash parseLog
  | DirBurn => processWithdrawalByTxHash parseLog
  end.

Definition sourceOf (d : Direction) : Chain :=
  match d with
  | DirDeposit => BSC
  | DirBurn => UC
  end.

Definition alreadyProcessedMessage (d : Direction) : string :=
  match d with
  | DirDeposit => "Deposit already processed"
  | DirBurn => "Withdrawal already processed"
  end.







(** What the handling of events leaves alone: the cursors in memory and on
    disk, the running flag and the pool index; and it queries no block range
    and throws nothing. *)
Definition KeepsCursors (r : Relayer) (tr : list Effect) (r' : Relayer)
    (out : string + unit) : Prop :=
  out = inr tt ∧
  bscLastBlock r' = bscLastBlock r ∧ ucLastBlock r' = ucLastBlock r ∧
  isRunning r' = isRunning r ∧ currentBscRpcIndex r' = currentBscRpcIndex r ∧
  lastBscBlock (stateManager r') = lastBscBlock (stateManager r) ∧
  lastUcBlock (stateManager r') = lastUcBlock (stateManager r) ∧
  Forall (λ e, match e with
               | WriteStateFile s' =>
                   lastBscBlock s' = lastBscBlock (stateManager r) ∧
                   lastUcBlock s' = lastUcBlock (stateManager r)
               | QueryFilter _ _ _ => False
               | _ => True
               end) tr.

(** The error messages that make the BSC watcher rotate its endpoint. *)
Definition rateLimitClass (message : string) : Prop :=
  isRateLimit message || Str.includes message "missing response" = true.


(** ** The EventVerifier, after the specification

    "fetch the transaction receipt; fail with ReceiptNotFound if absent or
    TransactionReverted if its status is not success; decode every log in the
    receipt against the bridge contract's ABI, discard logs that fail to
    decode, and select the first log matching expectedEventName; fail with
    EventNotFound if none match." *)
Module EventVerifierSpec.

Inductive VerifyError :=
  | ReceiptNotFound
  | TransactionReverted
  | EventNotFound.

Section Verify.

Variable parseLog : Chain -> Log -> Parse.

(** Decode every log, discarding those that fail to decode. *)
Fixpoint decodeAll (c : Chain) (ls : list Log) : list LogDescription :=
  match ls with
  | [] => []
  | l :: rest =>
      match parseLog c l with
      | Parsed d => d :: decodeAll c rest
      | ParseNull | ParseThrows => decodeAll c rest
      end
  end.

Definition matching (expectedEventName : string) (ds : list LogDescription)
    : list LogDescription :=
  List.filter (fun d => String.eqb (name d) expectedEventName) ds.

Definition verify (c : Chain) (expectedEventName : string)
    (receipt : option Receipt) : VerifyError + LogDescription :=
  match receipt with
  | None => inl ReceiptNotFound
  | Some r =>
      if bool_decide (status r = Some 1) then
        match matching expectedEventName (decodeAll c (logs r)) with
        | d :: _ => inr d
        | [] => inl EventNotFound
        end
      else inl TransactionReverted
  end.

End Verify.

(** The message each pipeline throws for a verification failure. *)
Definition message (c : Chain) (e : VerifyError) : string :=
  match e, c with
  | ReceiptNotFound, _ => "Transaction receipt not found"
  | TransactionReverted, BSC => "Transaction failed on BSC"
  | TransactionReverted, UC => "Transaction failed on UC"
  | EventNotFound, BSC => "Deposit event not found in transaction"
  | EventNotFound, UC => "Burn event not found in transaction"
  end.

End EventVerifierSpec.

(** ** Sample inputs *)

Module Sample.

(** An ABI stand-in: a log whose data is "deposit" or "burn" decodes to
    the corresponding event, "garbage" makes the decoder throw, any other
    log matches no fragment. *)
Definition parseLog (c : Chain) (l : Log) : Parse :=
  if String.eqb (logData l) "deposit" then
    Parsed (mkDesc "Deposit" (mkArgs "0xUser" 100000000 "0xid1" "0xDest"))
  else if String.eqb (logData l) "burn" then
    Parsed (mkDesc "Burn" (mkArgs "0xUser" 100000000 "0xid2" "0xDest"))
  else if String.eqb (logData l) "garbage" then ParseThrows
  else ParseNull.

Definition txHash : JsVal := JStr "0xabc".

(** A successful transaction mined in block 100 with a Deposit log. *)
Definition depositReceipt : Receipt :=
  mkReceipt (Some 1) 100
    [mkLog "0xToken" [] "garbage"; mkLog "0xBridge" [] "transfer";
     mkLog "0xBridge" [] "deposit"].

Definition burnReceipt : Receipt :=
  mkReceipt (Some 1) 100 [mkLog "0xBridge" [] "burn"].

(** The head stands at the event's block at the first poll and two
    blocks further after the sleep; the destination call goes through. *)
Definition depositEnv : PipelineEnv :=
  mkEnv (Ok (Some depositReceipt)) (Ok 100) (Ok 102) (Ok "0xdest") (Ok "0xdest").

Definition burnEnv : PipelineEnv :=
  mkEnv (Ok (Some burnReceipt)) (Ok 100) (Ok 102) (Ok "0xdest") (Ok "0xdest").

Definition q : string := String doubleQuote EmptyString.

(** The body a well-behaved client posts: an object with the hash
    under the key txHash. *)
Definition goodBody : string := "{" +:+ q +:+ "txHash" +:+ q +:+ ":" +:+ q +:+ "0xabc" +:+ q +:+ "}".

(** Not JSON: neither the key nor the value is quoted. *)
Definition looseBody : string := "{txHash: 0xabc}".

(** U+00A0 and U+2028, in UTF-8. *)
Definition nbsp : string := String "194"%char (String "160"%char EmptyString).
Definition lineSeparator : string :=
  String "226"%char (String "128"%char (String "168"%char EmptyString)).

(** A stand-in for [JSON.parse] that knows the documents used here and
    rejects every other text. *)
Definition JSON_parse (text : string) : option JsVal :=
  if String.eqb text goodBody then Some (JObj [("txHash", JStr "0xabc")])
  else if String.eqb text "{}" then Some (JObj [])
  else if String.eqb text "null" then Some JNull
  else None.

Definition relayer0 : Relayer :=
  mkRelayer ∅ ∅ true 0 100 100 StateManager.freshState.

Definition server0 : Server :=
  mkServer relayer0 StateManager.freshState StateManager.freshState.

Definition depositEvent : EventLog :=
  mkEventLog (mkArgs "0xUser" 100000000 "0xid1" "0xDest") "0xabc" 101.

(** A pass that finds the head at 103 and one deposit in block 101. *)
Definition iteration : IterationEnv :=
  mkIter (Ok 103) (Ok [depositEvent]) (λ _, depositEnv).

(** A pass whose first call is answered with a rate-limit error. *)
Definition rateLimited : IterationEnv :=
  mkIter (Throws "429 Too Many Requests") (Ok []) (λ _, depositEnv).

End Sample.

(** ** relayer.js: start-up and shutdown *)

(** [config.startBlockBsc] / [config.startBlockUc]: the word 'latest', or
    a block number ([parseInt] of the configured text). *)
Inductive StartBlock :=
| Latest
| FromBlock (n : Z).

(** What [initialize] reads of the configuration.  [setupError] is the
    error that building the wallets and contracts throws on a malformed
    private key or address ([new ethers.Wallet], [new ethers.Contract]),
    if any. *)
Record Config := mkConfig {
  startBlockBsc : StartBlock;
  startBlockUc : StartBlock;
  setupError : option string
}.

(** [saved || fallback] on a block cursor: [null] and 0 are falsy. *)
Definition savedCursor (saved : option Z) : option Z :=
  match saved with
  | Some b => if b =? 0 then None else Some b
  | None => None
  end.

(** [new BridgeRelayer()] followed by [initialize()], as [main] runs them;
    [st] is the state the relayer's StateManager loaded.  The relayer object
    is the value returned; a throw is logged and thrown again. *)
Definition initialize (cfg : Config) (bscHead ucHead : Rpc Z) (st : State)
    : M unit Relayer :=
  tryCatch
    (emit (ConnectBsc (endpointAt 0)) ;;
     match setupError cfg with
     | Some error => throw error
     | None => ret tt
     end ;;
     bscLast <- match savedCursor (lastBscBlock st) with
                | Some b => ret b
                | None =>
                    match startBlockBsc cfg with
                    | Latest => await (GetBlockNumber BSC) bscHead
                    | FromBlock n => ret n
                    end
                end ;;
     ucLast <- match savedCursor (lastUcBlock st) with
               | Some b => ret b
               | None =>
                   match startBlockUc cfg with
                   | Latest => await (GetBlockNumber UC) ucHead
                   | FromBlock n => ret n
                   end
               end ;;
     ret (mkRelayer (list_to_set (processedDeposits st))
                    (list_to_set (processedBurns st))
                    false 0 bscLast ucLast st))
    (fun error => throw error).

Definition setRunning (b : bool) (r : Relayer) : Relayer :=
  mkRelayer (processedDepositsSet r) (processedBurnsSet r) b
            (currentBscRpcIndex r) (bscLastBlock r) (ucLastBlock r) (stateManager r).

(** [start]: raises the flag; no monitoring is started ("On-demand
    processing only"). *)
Definition start : M Relayer unit :=
  r <- get ;;
  if isRunning r then ret tt
  else modify (setRunning true).

Definition stop : M Relayer unit := modify (setRunning false).

(** The handler of the watcher of a direction, and the in-memory set it
    checks. *)
Definition handleEvent (parseLog : Chain → Log → Parse) (d : Direction)
    : PipelineEnv → EventLog → M Relayer unit :=
  match d with
  | DirDeposit => handleBscDeposit parseLog
  | DirBurn => handleUcBurn
  end.

Definition processedSetOf (d : Direction) (r : Relayer) : gset string :=
  match d with
  | DirDeposit => processedDepositsSet r
  | DirBurn => processedBurnsSet r
  end.

(** ** The entry point: routing *)

(** [s.split(sep)] for a non-empty separator [sep]: [skip] characters of a
    separator just matched are still to be passed over, [cur] is the piece
    being collected. *)
Fixpoint splitOnGo (sep : string) (skip : nat) (cur : string) (s : string) : list string :=
  match s with
  | EmptyString => [cur]
  | String a s' =>
      match skip with
      | S k => splitOnGo sep k cur s'
      | O =>
          if Str.startsWith sep s
          then cur :: splitOnGo sep (String.length sep - 1) EmptyString s'
          else splitOnGo sep 0 (cur +:+ String a EmptyString) s'
      end
  end.

Definition splitOn (sep : string) (s : string) : list string :=
  splitOnGo sep 0 EmptyString s.

Record Request := mkRequest {
  method : string;
  url : string;
  body : string
}.

(** What is written with [res.end]. *)
Inductive Body :=
| BNone
| BHealth
| BError (error : string)
| BTxHashes (found : Found)                 (* JSON.stringify of what the lookup gave *)
| BAllTxHashes (all : gmap string TxHashes) (* the own properties *)
| BEcho (received : string)
| BPayload (p : Payload).

Record Reply := mkReply {
  replyStatus : Z;
  replyBody : Body
}.

Definition inRelayerStateManager {A} (m : M State A) : M Server A :=
  zoom (fun srv => stateManager (relayer srv))
       (fun st srv =>
          mkServer (mkRelayer (processedDepositsSet (relayer srv))
                              (processedBurnsSet (relayer srv))
                              (isRunning (relayer srv))
                              (currentBscRpcIndex (relayer srv))
                              (bscLastBlock (relayer srv))
                              (ucLastBlock (relayer srv)) st)
                   (depositModule srv) (withdrawalModule srv))
       m.

Definition txHashesPrefix : string := "/api/tx-hashes/".

(** [getAllTransactionHashes] *)
Definition getAllTransactionHashes : M State (gmap string TxHashes) :=
  s <- get ;; ret (ownEntries (default ∅ (transactionHashes s))).

Section Router.

Variable JSON_parse : string -> option JsVal.
Variable parseLog : Chain -> Log -> Parse.

(** The request listener of [http.createServer], with the body already
    received for the POST routes. *)
Definition handleRequest (env : PipelineEnv) (req : Request) : M Server Reply :=
  if String.eqb (method req) "OPTIONS" then ret (mkReply 200 BNone)
  else if String.eqb (url req) "/health" || String.eqb (url req) "/" then
    ret (mkReply 200 BHealth)
  else if Str.startsWith txHashesPrefix (url req) then
    match splitOn txHashesPrefix (url req) !! 1%nat with
    | Some txId =>
        if String.eqb txId "" then ret (mkReply 400 (BError "Transaction ID required"))
        else
          txHashes <- inRelayerStateManager (StateManager.getTransactionHashes txId) ;;
          if foundTruthy txHashes then ret (mkReply 200 (BTxHashes txHashes))
          else ret (mkReply 404 (BError "Transaction not found"))
    | None => ret (mkReply 400 (BError "Transaction ID required"))
    end
  else if String.eqb (url req) "/api/test-body" && String.eqb (method req) "POST" then
    ret (mkReply 200 (BEcho (body req)))
  else if String.eqb (url req) "/api/process-deposit" && String.eqb (method req) "POST" then
    resp <- onProcessDeposit JSON_parse parseLog env (body req) ;;
    ret (mkReply (statusCode resp) (BPayload (payload resp)))
  else if String.eqb (url req) "/api/process-withdrawal" && String.eqb (method req) "POST" then
    resp <- onProcessWithdrawal JSON_parse parseLog env (body req) ;;
    ret (mkReply (statusCode resp) (BPayload (payload resp)))
  else if String.eqb (url req) "/api/tx-hashes" then
    all <- inRelayerStateManager getAllTransactionHashes ;;
    ret (mkReply 200 (BAllTxHashes all))
  else ret (mkReply 404 (BError "Not found")).

(** The two routes that start a pipeline. *)
Definition isProcessRoute (req : Request) : bool :=
  String.eqb (method req) "POST" &&
  (String.eqb (url req) "/api/process-deposit" ||
   String.eqb (url req) "/api/process-withdrawal").

End Router.

(** ** More vocabulary for statements about runs *)

(** The block ranges a run asked events for, in order. *)
Definition queried (tr : list Effect) : list (Chain * Z * Z) :=
  omap (λ e, match e with
             | QueryFilter c a b => Some (c, a, b)
             | _ => None
             end) tr.

(** The endpoints a run connected to, in order. *)
Definition connected (tr : list Effect) : list string :=
  omap (λ e, match e with
             | ConnectBsc rpc => Some rpc
             | _ => None
             end) tr.

(** The head is ahead of the cursor in each of the passes [envs], taken
    from the cursor [cursor] on, and each query for events is answered. *)
Fixpoint aheadFrom (cursor : Z) (envs : list IterationEnv) : Prop :=
  match envs with
  | [] => True
  | env :: rest =>
      (∃ head events,
          headAnswer env = Ok head ∧ cursor < head ∧ logsAnswer env = Ok events) ∧
      aheadFrom (cursor + 1) rest
  end.

(** The processed lists hold no id twice and at most 10000 ids each. *)
Definition WellKept (s : State) : Prop :=
  NoDup (processedDeposits s) ∧ NoDup (processedBurns s) ∧
  Z.of_nat (length (processedDeposits s)) <= 10000 ∧
  Z.of_nat (length (processedBurns s)) <= 10000.

Definition otherDirection (d : Direction) : Direction :=
  match d with
  | DirDeposit => DirBurn
  | DirBurn => DirDeposit
  end.

(** From [s] to [s'] only the side [d] has moved, for the id [id]: the id
    was pushed on the processed list of [d] and has an entry in the
    transaction-hash map; the cursors, the processed list of the other
    direction and the entries of the other ids are as before. *)
Definition OnlyOneSide (d : Direction) (id : string) (s s' : State) : Prop :=
  processedOf d s' = StateManager.pushBounded id (processedOf d s) ∧
  is_Some (default ∅ (transactionHashes s') !! id) ∧
  lastBscBlock s' = lastBscBlock s ∧ lastUcBlock s' = lastUcBlock s ∧
  processedOf (otherDirection d) s' = processedOf (otherDirection d) s ∧
  ∀ key, key ≠ id →
    default ∅ (transactionHashes s') !! key = default ∅ (transactionHashes s) !! key.


(** The documents a run hands to [writeFileSync], in order. *)
Definition documentsWritten (tr : list Effect) : list State :=
  omap (λ e, match e with
             | WriteStateFile document => Some document
             | _ => None
             end) tr.

(** * Properties of the relay engine *)

(** ** Proof support *)

Ltac unfold_prog :=
  unfold tryCatch, bind, await, emit, throw, ret, get, put, modify, zoom,
    waitForConfirmations, withStateManager, inDepositModule, inWithdrawalModule,
    StateManager.isDepositProcessed, StateManager.isBurnProcessed,
    StateManager.addProcessedDeposit, StateManager.addProcessedBurn,
    StateManager.addDepositTxHashes, StateManager.addBurnTxHashes,
    StateManager.setLastBscBlock, StateManager.setLastUcBlock,
    StateManager.saveState,
    tryCatch, bind, await, emit, throw, ret, get, put, modify, zoom in *.

Ltac decide_hyps :=
  repeat match goal with
    | H : bool_decide _ = false |- _ => apply bool_decide_eq_false in H
    | H : bool_decide _ = true |- _ => apply bool_decide_eq_true in H
    | H : negb _ = false |- _ => apply negb_false_iff in H
    | H : negb _ = true |- _ => apply negb_true_iff in H
    | H : String.eqb _ _ = true |- _ => apply String.eqb_eq in H
    end.

(** Split every [match] of the run on what the world answered. *)
Ltac run_cases := repeat (simpl in *; case_match; simplify_eq).

Ltac solve_forall :=
  unfold noSubmission, noWrites, onlyWrites;
  repeat first [ apply Forall_nil_2 | apply Forall_cons_2 ]; simpl; try done; try tauto.

(** Cut a trace at its submission. *)
Ltac cut_list l k :=
  lazymatch l with
  | (Mint ?x ?y ?z) :: ?p => k (@nil Effect) (Mint x y z) z p
  | (Unlock ?x ?y ?z) :: ?p => k (@nil Effect) (Unlock x y z) z p
  | ?a :: ?rest => cut_list rest ltac:(fun pre e id p => k (a :: pre) e id p)
  end.

Ltac split_at_submit :=
  match goal with
  | |- ∃ pre e id post, ?l = _ ∧ _ =>
      cut_list l ltac:(fun pre e id p => exists pre, e, id, p)
  end.

Lemma elem_of_pushBounded id l : id ∈ StateManager.pushBounded id l.
Proof.
  unfold StateManager.pushBounded, StateManager.sliceLast.
  destruct (Z.gtb_spec (Z.of_nat (length (l ++ [id]))) 10000) as [Hgt|Hle];
    [| set_solver].
  rewrite length_app in *. simpl in *.
  rewrite drop_app_le by lia.
  apply elem_of_app. right. by apply list_elem_of_singleton.
Qed.

(** The tail of a run that submitted, in the three ways it can end. *)
Ltac close_submit_run :=
  first
    [ left; done
    | right; left; done
    | right; right; eexists _, _; split_and!;
      [done | solve_forall | done | ..]; simpl;
      first [ apply elem_of_pushBounded | set_solver ] ].

Ltac submit_then_mark :=
  unfold SubmitThenMark, store, trace;
  run_cases; simpl; decide_hyps; simplify_eq; try contradiction;
  try match goal with H : eventId (args _) = eventId _ |- _ => rewrite H in * end;
  first
    [ left; solve [split_and!; [solve_forall | solve_forall | done]]
    | right; split_at_submit; split_and!; try done; try solve_forall;
      try congruence; close_submit_run ].

(** ** Fee *)

(** C5: the fee is one percent by unsigned floor division: for every gross
    amount of the uint256 range the fee is [gross / 100] rounded down, net
    plus fee gives the gross amount back, the net amount stays in range,
    the fee is zero below 100 units, [netAmount 0 = 0] and
    [netAmount 99 = 99]. *)
Theorem fee_exactness (gross : Z) :
  0 <= gross < 2 ^ 256 →
  feeAmount gross = gross `div` 100 ∧
  netAmount gross + gross `div` 100 = gross ∧
  0 <= netAmount gross < 2 ^ 256 ∧
  100 * feeAmount gross <= gross < 100 * feeAmount gross + 100 ∧
  (gross < 100 → feeAmount gross = 0 ∧ netAmount gross = gross) ∧
  netAmount 0 = 0 ∧ netAmount 99 = 99.
Proof.
  intros [Hlo Hhi]. unfold netAmount, feeAmount.
  rewrite Z.quot_div_nonneg by lia.
  pose proof (Z.div_mod gross 100 ltac:(lia)) as Hdm.
  pose proof (Z.mod_pos_bound gross 100 ltac:(lia)) as Hm.
  repeat split; lia.
Qed.

Lemma fee_exactness_witness :
  0 <= 100000000 < 2 ^ 256 ∧
  feeAmount 100000000 = 1000000 ∧ netAmount 100000000 = 99000000 ∧
  netAmount 100000000 + 100000000 `div` 100 = 100000000.
Proof.
  assert (H : 0 <= 100000000 < 2 ^ 256) by (split; [lia | reflexivity]).
  split; [exact H |].
  split; [reflexivity |].
  split; [reflexivity |].
  exact (proj1 (proj2 (fee_exactness 100000000 H))).
Defined.

(** ** Order of submission and marking *)

Section Order.

Variable parseLog : Chain → Log → Parse.

Lemma deposit_submit_then_mark env tx s :
  let run := processDepositByTxHash parseLog env tx s in
  SubmitThenMark DirDeposit
    (λ id, id ∉ processedDeposits s)
    (λ id, id ∈ processedDeposits (store run))
    (store run = s) (trace run).
Proof.
  destruct env as [ra h1 h2 sa wa].
  unfold processDepositByTxHash. unfold_prog. submit_then_mark.
Qed.

Lemma withdrawal_submit_then_mark env tx s :
  let run := processWithdrawalByTxHash parseLog env tx s in
  SubmitThenMark DirBurn
    (λ id, id ∉ processedBurns s)
    (λ id, id ∈ processedBurns (store run))
    (store run = s) (trace run).
Proof.
  destruct env as [ra h1 h2 sa wa].
  unfold processWithdrawalByTxHash. unfold_prog. submit_then_mark.
Qed.

Lemma handleBscDeposit_submit_then_mark env event r :
  let run := handleBscDeposit parseLog env event r in
  SubmitThenMark DirDeposit
    (λ id, id ∉ processedDepositsSet r)
    (λ id, id ∈ processedDepositsSet (store run) ∧
           id ∈ processedDeposits (stateManager (store run)))
    (store run = r) (trace run).
Proof.
  destruct env as [ra h1 h2 sa wa].
  unfold handleBscDeposit. unfold_prog. submit_then_mark.
Qed.

Lemma handleUcBurn_submit_then_mark env event r :
  let run := handleUcBurn env event r in
  SubmitThenMark DirBurn
    (λ id, id ∉ processedBurnsSet r)
    (λ id, id ∈ processedBurnsSet (store run) ∧
           id ∈ processedBurns (stateManager (store run)))
    (store run = r) (trace run).
Proof.
  destruct env as [ra h1 h2 sa wa].
  unfold handleUcBurn. unfold_prog. submit_then_mark.
Qed.

End Order.

(** C1 (amended): in the four pipelines the order is submit, wait, mark.
    A destination call is submitted only for an id that is not in the
    processed set, with nothing written to the state file before it; the id
    is added to the processed set and written to the state file only after
    the receipt of the destination transaction has been awaited, and a run
    that stops at the submission or at the wait leaves the state as it was. *)
Theorem mark_follows_submission (parseLog : Chain → Log → Parse)
    (env : PipelineEnv) (tx : JsVal) (event : EventLog) (s : State) (r : Relayer) :
  (let run := processDepositByTxHash parseLog env tx s in
   SubmitThenMark DirDeposit
     (λ id, id ∉ processedDeposits s)
     (λ id, id ∈ processedDeposits (store run))
     (store run = s) (trace run)) ∧
  (let run := processWithdrawalByTxHash parseLog env tx s in
   SubmitThenMark DirBurn
     (λ id, id ∉ processedBurns s)
     (λ id, id ∈ processedBurns (store run))
     (store run = s) (trace run)) ∧
  (let run := handleBscDeposit parseLog env event r in
   SubmitThenMark DirDeposit
     (λ id, id ∉ processedDepositsSet r)
     (λ id, id ∈ processedDepositsSet (store run) ∧
            id ∈ processedDeposits (stateManager (store run)))
     (store run = r) (trace run)) ∧
  (let run := handleUcBurn env event r in
   SubmitThenMark DirBurn
     (λ id, id ∉ processedBurnsSet r)
     (λ id, id ∈ processedBurnsSet (store run) ∧
            id ∈ processedBurns (stateManager (store run)))
     (store run = r) (trace run)).
Proof.
  split_and!.
  - apply deposit_submit_then_mark.
  - apply withdrawal_submit_then_mark.
  - apply handleBscDeposit_submit_then_mark.
  - apply handleUcBurn_submit_then_mark.
Qed.

(** C1, as stated, fails on the sample deposit: when the mint is
    submitted, as the fifth effect of the run, nothing has been written and
    the processed list on file is still the empty one of the fresh state. *)
Lemma mark_before_submit_fails :
  ¬ MarkedBeforeSubmit StateManager.freshState
      (trace (processDepositByTxHash Sample.parseLog Sample.depositEnv
                Sample.txHash StateManager.freshState)).
Proof.
  intros Hclaim.
  assert (Hsplit : ∃ post,
             trace (processDepositByTxHash Sample.parseLog Sample.depositEnv
                      Sample.txHash StateManager.freshState) =
             [GetTransactionReceipt BSC Sample.txHash; GetBlockNumber BSC;
              Sleep 18000; GetBlockNumber BSC]
               ++ Mint "0xDest" 99000000 "0xid1" :: post)
    by (eexists; vm_compute; reflexivity).
  destruct Hsplit as [post Hsplit].
  pose proof (Hclaim _ _ _ DirDeposit "0xid1" Hsplit eq_refl) as Hin.
  simpl in Hin. by apply elem_of_nil in Hin.
Qed.

(** ** Event verification *)

Section Verification.

Variable parseLog : Chain → Log → Parse.

Lemma findNamed_decodeAll c expected ls :
  findNamed expected (List.map (parseOrNull parseLog c) ls) =
  head (EventVerifierSpec.matching expected (EventVerifierSpec.decodeAll parseLog c ls)).
Proof.
  unfold findNamed, EventVerifierSpec.matching, parseOrNull.
  induction ls as [| l ls IH]; simpl; [done |].
  destruct (parseLog c l) as [| | d]; simpl; try apply IH.
  destruct (String.eqb (name d) expected); simpl; [done | apply IH].
Qed.

Lemma matching_head c expected ls d rest :
  EventVerifierSpec.matching expected (EventVerifierSpec.decodeAll parseLog c ls) = d :: rest →
  d ∈ EventVerifierSpec.decodeAll parseLog c ls ∧ name d = expected.
Proof.
  intros Hm.
  assert (Hin : In d (EventVerifierSpec.matching expected
                        (EventVerifierSpec.decodeAll parseLog c ls)))
    by (rewrite Hm; left; done).
  apply filter_In in Hin as [Hin Hn].
  split; [by apply list_elem_of_In | by apply String.eqb_eq].
Qed.

End Verification.

Ltac uses_event :=
  unfold UsesEvent; simpl; split;
  [ solve_forall; auto
  | intros ? ? ? ? ? ? ? Hres; first [ discriminate Hres | by injection Hres as <- <- <- <- <- <- <- ] ].

(** C6: both on-demand pipelines verify the event as the specification's
    [verify] does.  With the receipt the chain returned: when [verify]
    fails (no receipt, status other than 1, or no decodable log of the
    expected name) the pipeline fails right after fetching the receipt,
    without touching the state; when [verify] selects the event [ev], it is
    the first log of the receipt that decodes to the expected name, and the
    id checked, the call submitted and the result returned are built from
    [ev] alone. *)
Theorem event_verification_algorithm (parseLog : Chain → Log → Parse)
    (receipt : option Receipt) (h1 h2 : Rpc Z) (sa wa : Rpc string)
    (tx : JsVal) (s : State) :
  let env := mkEnv (Ok receipt) h1 h2 sa wa in
  (let run := processDepositByTxHash parseLog env tx s in
   match EventVerifierSpec.verify parseLog BSC "Deposit" receipt with
   | inl e =>
       run = ([GetTransactionReceipt BSC tx], s, inl "event is not defined")
   | inr ev =>
       (∃ r, receipt = Some r ∧
             head (EventVerifierSpec.matching "Deposit"
                     (EventVerifierSpec.decodeAll parseLog BSC (logs r))) = Some ev ∧
             ev ∈ EventVerifierSpec.decodeAll parseLog BSC (logs r)) ∧
       name ev = "Deposit" ∧
       (eventId (args ev) ∈ processedDeposits s →
        run = ([GetTransactionReceipt BSC tx], s,
               inr (AlreadyProcessed "Deposit already processed"))) ∧
       UsesEvent DirDeposit ev tx (trace run) (outcome run)
   end) ∧
  (let run := processWithdrawalByTxHash parseLog env tx s in
   match EventVerifierSpec.verify parseLog UC "Burn" receipt with
   | inl e =>
       run = ([GetTransactionReceipt UC tx], s,
              inr (Failed (EventVerifierSpec.message UC e) tx))
   | inr ev =>
       (∃ r, receipt = Some r ∧
             head (EventVerifierSpec.matching "Burn"
                     (EventVerifierSpec.decodeAll parseLog UC (logs r))) = Some ev ∧
             ev ∈ EventVerifierSpec.decodeAll parseLog UC (logs r)) ∧
       name ev = "Burn" ∧
       (eventId (args ev) ∈ processedBurns s →
        run = ([GetTransactionReceipt UC tx], s,
               inr (AlreadyProcessed "Withdrawal already processed"))) ∧
       UsesEvent DirBurn ev tx (trace run) (outcome run)
   end).
Proof.
  split.
  - unfold processDepositByTxHash, EventVerifierSpec.verify. unfold_prog. simpl.
    destruct receipt as [r |]; simpl; [| done].
    unfold statusIsOne. rewrite findNamed_decodeAll.
    destruct (bool_decide (status r = Some 1)); simpl; [| done].
    destruct (EventVerifierSpec.matching _ _) as [| ev rest] eqn:Hm; simpl; [done |].
    destruct (matching_head _ _ _ _ _ _ Hm) as [Hin Hname].
    split_and!; [exists r; by rewrite Hm | done | |].
    + intros Hp. by rewrite bool_decide_eq_true_2.
    + unfold trace, outcome. run_cases; decide_hyps; uses_event.
  - unfold processWithdrawalByTxHash, EventVerifierSpec.verify. unfold_prog. simpl.
    destruct receipt as [r |]; simpl; [| done].
    unfold statusIsOne. rewrite findNamed_decodeAll.
    destruct (bool_decide (status r = Some 1)); simpl; [| done].
    destruct (EventVerifierSpec.matching _ _) as [| ev rest] eqn:Hm; simpl; [done |].
    destruct (matching_head _ _ _ _ _ _ Hm) as [Hin Hname].
    split_and!; [exists r; by rewrite Hm | done | |].
    + intros Hp. by rewrite bool_decide_eq_true_2.
    + unfold trace, outcome. run_cases; decide_hyps; uses_event.
Qed.

(** ** Confirmation wait *)

(** C2 (the code departs from it): the confirmation wait polls the
    head, sleeps once for the missing blocks and polls once more; the mint
    is then submitted whatever the second poll returned, also when the
    event still has fewer than six confirmations. *)
Theorem submission_after_single_repoll (parseLog : Chain → Log → Parse)
    (receipt : Receipt) (ev : LogDescription) (h1 h2 : Z) (sa wa : Rpc string)
    (tx : JsVal) (s : State) :
  EventVerifierSpec.verify parseLog BSC "Deposit" (Some receipt) = inr ev →
  eventId (args ev) ∉ processedDeposits s →
  h1 - blockNumber receipt < requiredConfirmations →
  ∃ post,
    trace (processDepositByTxHash parseLog
             (mkEnv (Ok (Some receipt)) (Ok h1) (Ok h2) sa wa) tx s) =
    [ GetTransactionReceipt BSC tx;
      GetBlockNumber BSC;
      Sleep ((requiredConfirmations - (h1 - blockNumber receipt)) * 3000);
      GetBlockNumber BSC;
      Mint (destinationAddress (args ev)) (netAmount (amount (args ev)))
           (eventId (args ev)) ] ++ post.
Proof.
  intros Hv Hnew Hfew.
  unfold EventVerifierSpec.verify in Hv.
  unfold processDepositByTxHash. unfold_prog. simpl.
  unfold statusIsOne. rewrite findNamed_decodeAll.
  destruct (bool_decide (status receipt = Some 1)); [| discriminate].
  destruct (EventVerifierSpec.matching _ _) as [| ev' rest]; [discriminate |].
  injection Hv as ->. simpl.
  rewrite bool_decide_eq_false_2 by done. simpl.
  apply Z.ltb_lt in Hfew. rewrite Hfew. simpl.
  unfold trace. run_cases; eexists; reflexivity.
Qed.

Lemma submission_after_single_repoll_witness :
  102 - 100 < requiredConfirmations ∧
  ∃ post,
    trace (processDepositByTxHash Sample.parseLog Sample.depositEnv
             Sample.txHash StateManager.freshState) =
    [ GetTransactionReceipt BSC Sample.txHash; GetBlockNumber BSC; Sleep 18000;
      GetBlockNumber BSC; Mint "0xDest" 99000000 "0xid1" ] ++ post.
Proof.
  split; [reflexivity |].
  apply (submission_after_single_repoll Sample.parseLog Sample.depositReceipt
           (mkDesc "Deposit" (mkArgs "0xUser" 100000000 "0xid1" "0xDest"))
           100 102 (Ok "0xdest") (Ok "0xdest") Sample.txHash StateManager.freshState).
  - reflexivity.
  - apply not_elem_of_nil.
  - reflexivity.
Defined.

(** ** Repeated invocation *)

(** C3 (amended): once a pipeline has completed for a transaction, the id
    of its event is in the processed list; and in every state whose
    processed list holds that id, a further invocation that finds the same
    receipt stops right after fetching it: it submits nothing and leaves the
    state as it is, and it returns the "already processed" object, whose
    [success] field is false and which the gateway answers with status 400.
    In a state whose list no longer holds the id, the invocation submits
    again. *)
Theorem second_invocation_already_processed (parseLog : Chain → Log → Parse)
    (d : Direction) (env env' : PipelineEnv) (tx : JsVal) (s : State)
    (id : string) (src : JsVal) (dst : string) (net orig fee : Z) (rcp : string) :
  outcome (process parseLog d env tx s) = inr (Completed id src dst net orig fee rcp) →
  receiptAnswer env' = receiptAnswer env →
  let again := AlreadyProcessed (alreadyProcessedMessage d) in
  id ∈ processedOf d (store (process parseLog d env tx s)) ∧
  (∀ s', id ∈ processedOf d s' →
         process parseLog d env' tx s' =
           ([GetTransactionReceipt (sourceOf d) tx], s', inr again)) ∧
  (∀ s', id ∉ processedOf d s' →
         submission d rcp net id ∈ trace (process parseLog d env tx s')) ∧
  success again = false ∧
  respond again = mkResponse 400 (PResult again).
Proof.
  intros Hfirst Hsame.
  destruct env as [ra h1 h2 sa wa], env' as [ra' h1' h2' sa' wa'].
  simpl in Hsame. subst ra'.
  destruct d; simpl in *.
  - unfold processDepositByTxHash, outcome, store, trace in *. unfold_prog.
    run_cases; decide_hyps; simplify_eq; try done.
    all: match goal with
         | H : Completed _ _ _ _ _ _ _ = Completed _ _ _ _ _ _ _ |- _ =>
             injection H as <- <- <- <- <- <- <-
         end.
    all: split; [simpl; apply elem_of_pushBounded |].
    all: split; [intros s' Hs'; simpl; by rewrite bool_decide_eq_true_2 by done |].
    all: split; [| done].
    all: intros s' Hs'; simpl; rewrite bool_decide_eq_false_2 by done; simpl.
    all: rewrite decide_False by done; simpl.
    all: repeat first [ apply list_elem_of_here | apply list_elem_of_further ].
  - unfold processWithdrawalByTxHash, outcome, store, trace in *. unfold_prog.
    run_cases; decide_hyps; simplify_eq; try done.
    all: match goal with
         | H : Completed _ _ _ _ _ _ _ = Completed _ _ _ _ _ _ _ |- _ =>
             injection H as <- <- <- <- <- <- <-
         end.
    all: split; [simpl; apply elem_of_pushBounded |].
    all: split; [intros s' Hs'; simpl; by rewrite bool_decide_eq_true_2 by done |].
    all: split; [| done].
    all: intros s' Hs'; simpl; rewrite bool_decide_eq_false_2 by done; simpl.
    all: rewrite decide_False by done; simpl.
    all: repeat first [ apply list_elem_of_here | apply list_elem_of_further ].
Qed.

Lemma second_invocation_already_processed_witness :
  let first := processDepositByTxHash Sample.parseLog Sample.depositEnv
                 Sample.txHash StateManager.freshState in
  processDepositByTxHash Sample.parseLog Sample.depositEnv Sample.txHash (store first) =
    ([GetTransactionReceipt BSC Sample.txHash], store first,
     inr (AlreadyProcessed "Deposit already processed")).
Proof.
  intros first.
  apply (proj1 (proj2 (second_invocation_already_processed Sample.parseLog DirDeposit
                         Sample.depositEnv Sample.depositEnv Sample.txHash
                         StateManager.freshState
                         "0xid1" Sample.txHash "0xdest" 99000000 100000000 1000000
                         "0xDest" eq_refl eq_refl))).
  vm_compute. apply list_elem_of_here.
Defined.

(** C3, as stated, fails: the second request for the sample deposit is
    answered with status 400 and an object whose [success] field is false,
    where the first one got 200. *)
Lemma already_processed_is_answered_400 :
  let first := onProcessDeposit Sample.JSON_parse Sample.parseLog Sample.depositEnv
                 Sample.goodBody Sample.server0 in
  let second := onProcessDeposit Sample.JSON_parse Sample.parseLog Sample.depositEnv
                  Sample.goodBody (store first) in
  outcome first =
    inr (mkResponse 200
           (PResult (Completed "0xid1" Sample.txHash "0xdest"
                               99000000 100000000 1000000 "0xDest"))) ∧
  outcome second =
    inr (mkResponse 400 (PResult (AlreadyProcessed "Deposit already processed"))) ∧
  success (AlreadyProcessed "Deposit already processed") = false.
Proof. vm_compute. done. Qed.

(** ** The processed lists of the StateManager *)

Section ProcessedLists.

Import StateManager.

Lemma pushBounded_sliceLast id l : pushBounded id l = sliceLast 10000 (l ++ [id]).
Proof.
  unfold pushBounded, sliceLast.
  destruct (Z.gtb_spec (Z.of_nat (length (l ++ [id]))) 10000) as [Hgt | Hle]; [done |].
  match goal with |- context [Z.to_nat ?z] => replace (Z.to_nat z) with 0%nat by lia end. done.
Qed.

Lemma length_sliceLast n l :
  0 <= n → Z.of_nat (length (sliceLast n l)) = Z.min n (Z.of_nat (length l)).
Proof. intros Hn. unfold sliceLast. rewrite length_drop. lia. Qed.

Lemma sliceLast_app n a b :
  0 <= n → sliceLast n (sliceLast n a ++ b) = sliceLast n (a ++ b).
Proof.
  intros Hn. unfold sliceLast.
  rewrite !length_app, length_drop.
  set (k := Z.to_nat (Z.of_nat (length a) - n)).
  destruct (decide (Z.of_nat (length a) <= n)) as [Hle | Hgt].
  - replace k with 0%nat by lia. rewrite drop_0. f_equal. lia.
  - assert (Hk : (k <= length a)%nat) by lia.
    rewrite <- (take_drop k a) at 4.
    rewrite <- (assoc_L (++)).
    rewrite (drop_app_ge (take k a)); rewrite length_take; [| lia].
    f_equal. lia.
Qed.

(** The list after pushing [ids] one by one. *)
Lemma fold_pushBounded ids l :
  Z.of_nat (length l) <= 10000 →
  fold_left (λ acc id, pushBounded id acc) ids l = sliceLast 10000 (l ++ ids).
Proof.
  revert l. induction ids as [| x ids IH]; intros l Hl; simpl.
  - rewrite app_nil_r. unfold sliceLast.
    match goal with |- context [Z.to_nat ?z] => replace (Z.to_nat z) with 0%nat by lia end. done.
  - rewrite IH.
    + rewrite pushBounded_sliceLast, sliceLast_app by lia.
      by rewrite <- (assoc_L (++)).
    + rewrite pushBounded_sliceLast, length_sliceLast by lia. lia.
Qed.

Lemma sliceLast_subseteq n l id : id ∈ sliceLast n l → id ∈ l.
Proof. unfold sliceLast. apply subseteq_drop. Qed.

(** *** The transaction-hash object, read for its entries *)

Lemma lookup_TxObject (obj : TxObject) id :
  obj !! id = match ownEntries obj !! id with
              | Some h => Some h
              | None => if String.eqb id "__proto__" then protoEntry obj else None
              end.
Proof. done. Qed.

Lemma lookup_jsSet_eq id h obj : jsSet id h obj !! id = Some h.
Proof.
  rewrite lookup_TxObject. unfold jsSet.
  destruct (ownEntries obj !! id) as [h0 |] eqn:Hown; simpl.
  - by rewrite lookup_insert_eq.
  - destruct (String.eqb id "__proto__") eqn:Hp; simpl.
    + by rewrite Hown.
    + by rewrite lookup_insert_eq.
Qed.

Lemma lookup_jsSet_ne id key h obj : key ≠ id → jsSet id h obj !! key = obj !! key.
Proof.
  intros Hne. rewrite !lookup_TxObject. unfold jsSet.
  destruct (ownEntries obj !! id) as [h0 |] eqn:Hown; simpl.
  - by rewrite lookup_insert_ne.
  - destruct (String.eqb_spec id "__proto__") as [-> | Hp]; simpl.
    + destruct (ownEntries obj !! key); [done |].
      by rewrite (proj2 (String.eqb_neq key "__proto__") Hne).
    + by rewrite lookup_insert_ne.
Qed.

Lemma jsGet_entry obj id h : jsGet obj id = FoundEntry h → obj !! id = Some h.
Proof.
  rewrite lookup_TxObject. unfold jsGet, objectPrototypeField, entryField.
  destruct (ownEntries obj !! id) as [h0 |]; [by intros [= ->] |].
  destruct (String.eqb id "__proto__"); [by destruct (protoEntry obj); intros [= ->] |].
  intros H. destruct (protoEntry obj); repeat case_match; simplify_eq.
Qed.

(** What [setDestOn] leaves of the entries: each id that had one still has
    one. *)
Lemma setDestOn_keeps id dest obj found obj' key :
  jsGet obj id = found → setDestOn id dest obj found = inr obj' →
  is_Some (obj !! key) → is_Some (obj' !! key).
Proof.
  intros Hget Hset Hkey.
  destruct found as [h | d | n | v | |]; simpl in Hset; simplify_eq; try done.
  - destruct (decide (key = id)) as [-> | Hne].
    + rewrite lookup_jsSet_eq. by eexists.
    + by rewrite lookup_jsSet_ne.
  - destruct v; simplify_eq; try done.
    revert Hkey. rewrite !lookup_TxObject. simpl.
    destruct (ownEntries obj !! key); [done |].
    destruct (String.eqb key "__proto__"); [| done].
    destruct (protoEntry obj); simpl; [by eexists | done].
Qed.

(** A call either returns, or throws with the state it has reached: the
    calls that follow a throw are not made. *)
Lemma runOps_cons o ops s :
  store (runOps (o :: ops) s) =
  match outcome (runOp o s) with
  | inr _ => store (runOps ops (store (runOp o s)))
  | inl _ => store (runOp o s)
  end.
Proof.
  unfold runOps. simpl. unfold bind at 1. unfold outcome, store.
  destruct (runOp o s) as [[t1 s1] [e | []]]; simpl; [done |].
  by destruct (forEach runOp ops s1) as [[t2 s2] r2].
Qed.

Lemma runOps_nil s : store (runOps [] s) = s.
Proof. done. Qed.

(** A property of the state that every call keeps is kept by every
    sequence of calls. *)
Lemma runOps_invariant (P : State → Prop) :
  (∀ o s, P s → P (store (runOp o s))) →
  ∀ ops s, P s → P (store (runOps ops s)).
Proof.
  intros Hstep. induction ops as [| o ops IH]; intros s Hs; [done |].
  rewrite runOps_cons. destruct (outcome (runOp o s)); [by apply Hstep |].
  by apply IH, Hstep.
Qed.

Ltac run_update :=
  unfold updateDestTxHash, setDestOn; unfold_prog; simpl;
  repeat (case_match; simpl; simplify_eq); simpl.

(** What a call does to the processed list of a direction. *)
Lemma runOp_processedOf d o s :
  processedOf d (store (runOp o s)) =
  match d, o with
  | DirDeposit, OpAddProcessedDeposit id
  | DirBurn, OpAddProcessedBurn id =>
      if decide (id ∈ processedOf d s) then processedOf d s
      else pushBounded id (processedOf d s)
  | _, _ => processedOf d s
  end.
Proof.
  destruct d, o; unfold runOp, store; try (unfold_prog; simpl; run_cases; done).
  all: run_update; done.
Qed.

Lemma runOp_hasTxHashes key o s : hasTxHashes key s → hasTxHashes key (store (runOp o s)).
Proof.
  unfold hasTxHashes.
  destruct o as [b | b | id | id | id src dst | id src dst | id dst];
    unfold runOp, store.
  1-4: unfold_prog; simpl; run_cases; done.
  1-2: unfold setTxHashes; unfold_prog; simpl; intros Hk;
    (destruct (decide (key = id)) as [-> | Hne];
     [ rewrite lookup_jsSet_eq; by eexists | by rewrite lookup_jsSet_ne ]).
  unfold updateDestTxHash. unfold_prog. simpl. intros Hkey.
  destruct (foundTruthy _); simpl; [| done].
  destruct (setDestOn id dst _ _) as [e | obj'] eqn:Hset; simpl; [done |].
  by eapply setDestOn_keeps.
Qed.

Lemma amongLast_elem k id l : amongLast k id l → id ∈ l.
Proof. unfold amongLast. apply subseteq_drop. Qed.

Lemma amongLast_mono k k' id l : (k <= k')%nat → amongLast k id l → amongLast k' id l.
Proof.
  unfold amongLast. intros Hk Hin.
  replace (drop (length l - k) l)
    with (drop ((length l - k) - (length l - k')) (drop (length l - k') l)) in Hin
    by (rewrite drop_drop; f_equal; lia).
  by apply subseteq_drop in Hin.
Qed.

Lemma amongLast_pushBounded k id x l :
  Z.of_nat k + 1 <= 10000 → amongLast k id l → amongLast (S k) id (pushBounded x l).
Proof.
  unfold amongLast. intros Hk Hin.
  rewrite pushBounded_sliceLast. unfold sliceLast.
  rewrite drop_drop, length_drop, length_app. simpl.
  replace (_ + _)%nat with (length l - k)%nat by lia.
  rewrite drop_app_le by lia.
  apply elem_of_app. by left.
Qed.

Lemma runOp_processedOf_cases d o s :
  processedOf d (store (runOp o s)) = processedOf d s ∨
  (isAdd d o = true ∧
   ∃ x, processedOf d (store (runOp o s)) = pushBounded x (processedOf d s)).
Proof.
  rewrite runOp_processedOf.
  destruct d, o; simpl; try (by left); (destruct (decide _); [by left | right; eauto]).
Qed.

Lemma adds_cons d o ops :
  adds d (o :: ops) = ((if isAdd d o then 1 else 0) + adds d ops)%nat.
Proof. unfold adds. simpl. by destruct (isAdd d o). Qed.

Lemma runOps_keeps_recent d ops : ∀ s id k,
  amongLast k id (processedOf d s) →
  Z.of_nat k + Z.of_nat (adds d ops) <= 10000 →
  id ∈ processedOf d (store (runOps ops s)).
Proof.
  induction ops as [| o ops IH]; intros s id k Hin Hk.
  - rewrite runOps_nil. by eapply amongLast_elem.
  - rewrite runOps_cons. rewrite adds_cons in Hk.
    destruct (runOp_processedOf_cases d o s) as [Hsame | (Hadd & x & Hpush)].
    + destruct (outcome (runOp o s)).
      * rewrite Hsame. by eapply amongLast_elem.
      * apply (IH _ _ k); [by rewrite Hsame | destruct (isAdd d o); lia].
    + rewrite Hadd in Hk.
      assert (Hnext : amongLast (S k) id (processedOf d (store (runOp o s)))).
      { rewrite Hpush. apply amongLast_pushBounded; [lia | done]. }
      destruct (outcome (runOp o s)); [by eapply amongLast_elem |].
      apply (IH _ _ (S k)); [done | lia].
Qed.

Lemma runOps_hasTxHashes key ops : ∀ s,
  hasTxHashes key s → hasTxHashes key (store (runOps ops s)).
Proof. apply runOps_invariant. intros o s. apply runOp_hasTxHashes. Qed.

(** The calls that add to a processed list return. *)
Lemma addProcessedDeposit_returns id s :
  outcome (runOp (OpAddProcessedDeposit id) s) = inr tt.
Proof. unfold runOp, outcome. unfold_prog. simpl. by run_cases. Qed.

(** Adding ids that are new and distinct pushes each of them. *)
Lemma runOps_fresh_deposits ids : ∀ s,
  NoDup ids → (∀ id, id ∈ ids → id ∉ processedDeposits s) →
  processedDeposits (store (runOps (OpAddProcessedDeposit <$> ids) s)) =
  fold_left (λ acc id, pushBounded id acc) ids (processedDeposits s).
Proof.
  induction ids as [| x ids IH]; intros s Hnd Hnew; [done |].
  rewrite fmap_cons, runOps_cons, addProcessedDeposit_returns. simpl.
  apply NoDup_cons in Hnd as [Hx Hnd].
  pose proof (runOp_processedOf DirDeposit (OpAddProcessedDeposit x) s) as Hstep.
  simpl in Hstep.
  rewrite decide_False in Hstep by (apply Hnew; left).
  rewrite IH; [by rewrite Hstep | done |].
  intros id Hid. rewrite Hstep, pushBounded_sliceLast.
  intros Hin%sliceLast_subseteq%elem_of_app.
  destruct Hin as [Hin | Hin%list_elem_of_singleton].
  - by apply (Hnew id); [right |].
  - by subst.
Qed.

End ProcessedLists.

(** C4 (amended): an id of a processed list stays in it as long as it is
    among the last 10000 entries: when it is one of the last [k] entries
    and a sequence of StateManager calls adds at most [10000 - k] ids to
    that list, the id is still there afterwards.  The transaction-hash map
    is never trimmed: a key it holds is kept by every sequence of calls. *)
Theorem processed_id_kept_while_recent (ops : list StateManager.Op) (d : Direction)
    (s : State) (id : string) (k : nat) :
  StateManager.amongLast k id (processedOf d s) →
  Z.of_nat k + Z.of_nat (StateManager.adds d ops) <= 10000 →
  let s' := store (StateManager.runOps ops s) in
  id ∈ processedOf d s' ∧
  ∀ key, StateManager.hasTxHashes key s → StateManager.hasTxHashes key s'.
Proof.
  intros Hin Hk. split.
  - by eapply runOps_keeps_recent.
  - intros key. apply runOps_hasTxHashes.
Qed.

Lemma processed_id_kept_while_recent_witness :
  let s := mkState None None ["0xa"] [] None in
  let ops := [ StateManager.OpAddProcessedDeposit "0xb";
               StateManager.OpSetLastBscBlock 5;
               StateManager.OpAddProcessedDeposit "0xc" ] in
  "0xa" ∈ processedDeposits (store (StateManager.runOps ops s)).
Proof.
  intros s ops.
  refine (proj1 (processed_id_kept_while_recent ops DirDeposit s "0xa" 1 _ _)).
  - apply list_elem_of_here.
  - vm_compute. discriminate.
Defined.

Lemma full_list_drops_oldest (first : string) (ids : list string) :
  NoDup ids → first ∉ ids → Z.of_nat (length ids) = 10000 →
  let s1 := store (StateManager.runOps [StateManager.OpAddProcessedDeposit first]
                     StateManager.freshState) in
  first ∈ processedDeposits s1 ∧
  first ∉ processedDeposits
            (store (StateManager.runOps (StateManager.OpAddProcessedDeposit <$> ids) s1)).
Proof.
  intros Hnd Hnot Hlen s1.
  assert (Hs1 : processedDeposits s1 = [first]) by reflexivity.
  split; [rewrite Hs1; apply list_elem_of_here |].
  rewrite runOps_fresh_deposits; [| done |].
  - rewrite fold_pushBounded by (rewrite Hs1; simpl; lia).
    rewrite Hs1. unfold StateManager.sliceLast.
    rewrite length_app. simpl length.
    match goal with
    | |- context [Z.to_nat ?z] => replace (Z.to_nat z) with 1%nat by lia
    end.
    done.
  - intros id Hid. rewrite Hs1. by intros ->%list_elem_of_singleton.
Qed.

(** C4, as stated, fails: after the id "0" has been added to a new state,
    adding the 10000 ids "1" ... "10000" drops it from the list. *)
Lemma oldest_processed_id_is_dropped :
  let s1 := store (StateManager.runOps [StateManager.OpAddProcessedDeposit "0"]
                     StateManager.freshState) in
  let later := StateManager.OpAddProcessedDeposit <$>
                 (pretty <$> seq 1 (Z.to_nat 10000)) in
  "0" ∈ processedDeposits s1 ∧
  "0" ∉ processedDeposits (store (StateManager.runOps later s1)).
Proof.
  apply full_list_drops_oldest.
  - apply NoDup_fmap; [apply _ | apply NoDup_seq].
  - change "0" with (pretty 0%nat).
    intros (n & Heq & Hn)%list_elem_of_fmap.
    apply (inj pretty) in Heq. subst n. apply elem_of_seq in Hn. lia.
  - rewrite length_fmap, length_seq. lia.
Qed.

(** ** Loading the state file *)

(** C10: when the state file exists but cannot be read or does not parse
    as JSON, [loadState] returns, without failing, the same fresh state as
    when there is no file: no block cursors, empty processed lists and an
    empty transaction-hash map.  Whatever the file recorded is dropped. *)
Theorem loadState_corrupt_file_is_fresh (JSON_parse : string → option JsVal)
    (f : StateManager.StateFile) :
  match f with
  | StateManager.Missing => False
  | StateManager.Unreadable _ => True
  | StateManager.Contents data => JSON_parse data = None
  end →
  StateManager.loadState JSON_parse f = StateManager.Fresh StateManager.freshState ∧
  StateManager.loadState JSON_parse f = StateManager.loadState JSON_parse StateManager.Missing ∧
  lastBscBlock StateManager.freshState = None ∧
  lastUcBlock StateManager.freshState = None ∧
  processedDeposits StateManager.freshState = [] ∧
  processedBurns StateManager.freshState = [] ∧
  transactionHashes StateManager.freshState = Some ∅.
Proof.
  intros Hf. unfold StateManager.loadState, StateManager.tryLoad.
  destruct f as [| message | data]; [done | done |].
  by rewrite Hf.
Qed.

Lemma loadState_corrupt_file_is_fresh_witness :
  Sample.JSON_parse "{ lastBscBlock: 4200" = None ∧
  StateManager.loadState Sample.JSON_parse (StateManager.Contents "{ lastBscBlock: 4200") =
    StateManager.Fresh StateManager.freshState.
Proof.
  split; [reflexivity |].
  exact (proj1 (loadState_corrupt_file_is_fresh Sample.JSON_parse
                  (StateManager.Contents "{ lastBscBlock: 4200") eq_refl)).
Defined.

(** ** The gateway *)

Section GatewayFacts.

Variable JSON_parse : string → option JsVal.

Lemma manualExtract_needs_markers clean :
  Str.includes clean "txHash:" && Str.includes clean "0x" = false →
  manualExtract clean = None.
Proof. unfold manualExtract. by intros ->. Qed.

(** Bodies from which no hash comes out. *)
Lemma extractTxHash_none body :
  match JSON_parse (stripQuotes (Str.trim body)) with
  | Some (JObj fields) => truthy_opt (assoc "txHash" fields) = false
  | Some JNull | None =>
      Str.includes (stripQuotes (Str.trim body)) "txHash:"
      && Str.includes (stripQuotes (Str.trim body)) "0x" = false
  | Some _ => True
  end →
  truthy_opt (extractTxHash JSON_parse body) = false.
Proof.
  unfold extractTxHash.
  destruct (JSON_parse _) as [[] |]; simpl; try done.
  all: by intros ->%manualExtract_needs_markers.
Qed.

Lemma includes_cons a s sub :
  Str.includes (String a s) sub =
  if Str.startsWith sub (String a s) then true else Str.includes s sub.
Proof. done. Qed.

Lemma startsWith_colon a s : Str.startsWith ":" (String a s) = Ascii.eqb ":" a.
Proof. cbn [Str.startsWith]. by destruct (Ascii.eqb ":" a). Qed.

Lemma startsWith_txHash_colon s :
  Str.startsWith "txHash:" s = true → Str.includes s ":" = true.
Proof.
  intros H.
  do 7 (destruct s as [| ? s]; [discriminate |];
        cbn [Str.startsWith] in H;
        match type of H with
        | (if Ascii.eqb ?x ?y then _ else _) = _ =>
            destruct (Ascii.eqb_spec x y); [subst | discriminate]
        end).
  reflexivity.
Qed.

Lemma includes_txHash_colon s :
  Str.includes s "txHash:" = true → Str.includes s ":" = true.
Proof.
  induction s as [| a s IH]; [done |].
  rewrite !includes_cons.
  destruct (Str.startsWith "txHash:" (String a s)) eqn:Hstart.
  - intros _. apply startsWith_txHash_colon in Hstart.
    by rewrite includes_cons in Hstart.
  - intros H. rewrite (IH H). by destruct (Str.startsWith ":" (String a s)).
Qed.

Lemma includes_colon_removeBraces s :
  Str.includes s ":" = true → Str.includes (Str.removeBraces s) ":" = true.
Proof.
  induction s as [| a s IH]; [done |].
  rewrite includes_cons, startsWith_colon.
  destruct (Ascii.eqb_spec ":" a) as [<- | Hne].
  - intros _. reflexivity.
  - intros H. specialize (IH H). cbn [Str.removeBraces].
    destruct (Ascii.eqb a "{" || Ascii.eqb a "}")%char; [done |].
    rewrite includes_cons, IH. by destruct (Str.startsWith ":" (String a _)).
Qed.

Lemma split_nonempty sep s : ∃ p ps, Str.split sep s = p :: ps.
Proof.
  induction s as [| a s (p & ps & IH)]; simpl; [by eexists _, _ |].
  destruct (Ascii.eqb a sep); [by eexists _, _ |].
  rewrite IH. by eexists _, _.
Qed.

(** A text with a colon has a piece after the first colon. *)
Lemma split_second_piece s :
  Str.includes s ":" = true → ∃ piece, Str.split ":" s !! 1%nat = Some piece.
Proof.
  induction s as [| a s IH]; [done |].
  rewrite includes_cons, startsWith_colon. cbn [Str.split].
  destruct (Ascii.eqb_spec ":" a) as [<- | Hne].
  - intros _. destruct (split_nonempty ":" s) as (p & ps & ->). by exists p.
  - intros H. destruct (IH H) as [piece Hpiece].
    rewrite (proj2 (Ascii.eqb_neq a ":")) by done.
    destruct (split_nonempty ":" s) as (p & ps & Hsplit).
    rewrite Hsplit in *. by exists piece.
Qed.

(** The fallback: what is extracted from a body that is not JSON. *)
Lemma extractTxHash_fallback body :
  let clean := stripQuotes (Str.trim body) in
  JSON_parse clean = None ∨ JSON_parse clean = Some JNull →
  Str.includes clean "txHash:" = true → Str.includes clean "0x" = true →
  ∃ piece, Str.split ":" (Str.removeBraces clean) !! 1%nat = Some piece ∧
           extractTxHash JSON_parse body = Some (JStr (Str.trim piece)).
Proof.
  intros clean Hparse Hkey Hox.
  destruct (split_second_piece (Str.removeBraces clean)) as [piece Hpiece].
  { by apply includes_colon_removeBraces, includes_txHash_colon. }
  exists piece. split; [done |].
  assert (Hmanual : manualExtract clean = Some (JStr (Str.trim piece))).
  { unfold manualExtract. rewrite Hkey, Hox. cbn [andb]. cbv zeta.
    apply lookup_lt_Some in Hpiece as Hlen.
    rewrite (proj2 (Nat.leb_le 2 _)) by lia. by rewrite Hpiece. }
  unfold extractTxHash. fold clean.
  by destruct Hparse as [-> | ->].
Qed.

(** A route hands the hash it extracted to its pipeline, which runs on the
    state manager of its module. *)
Lemma onProcessDeposit_runs parseLog env body srv hash :
  extractTxHash JSON_parse body = Some hash → truthy hash = true →
  let run := onProcessDeposit JSON_parse parseLog env body srv in
  let pipeline := processDepositByTxHash parseLog env hash (depositModule srv) in
  trace run = trace pipeline ∧ depositModule (store run) = store pipeline.
Proof.
  intros Hhash Htruthy. unfold onProcessDeposit, trace, store. unfold_prog.
  rewrite Hhash, Htruthy.
  destruct (processDepositByTxHash parseLog env hash (depositModule srv))
    as [[t s] [e | res]]; simpl; by rewrite ?app_nil_r.
Qed.

Lemma onProcessWithdrawal_runs parseLog env body srv hash :
  extractTxHash JSON_parse body = Some hash → truthy hash = true →
  let run := onProcessWithdrawal JSON_parse parseLog env body srv in
  let pipeline := processWithdrawalByTxHash parseLog env hash (withdrawalModule srv) in
  trace run = trace pipeline ∧ withdrawalModule (store run) = store pipeline.
Proof.
  intros Hhash Htruthy. unfold onProcessWithdrawal, trace, store. unfold_prog.
  rewrite Hhash, Htruthy.
  destruct (processWithdrawalByTxHash parseLog env hash (withdrawalModule srv))
    as [[t s] [e | res]]; simpl; by rewrite ?app_nil_r.
Qed.

Lemma rejected_without_hash parseLog env body srv :
  truthy_opt (extractTxHash JSON_parse body) = false →
  let rejected :=
    ([], srv, inr (mkResponse 400 (PError "Transaction hash required"))) in
  onProcessDeposit JSON_parse parseLog env body srv = rejected ∧
  onProcessWithdrawal JSON_parse parseLog env body srv = rejected.
Proof.
  intros Hnone. unfold onProcessDeposit, onProcessWithdrawal. unfold_prog.
  destruct (extractTxHash JSON_parse body) as [v |]; simpl in *; [| done].
  by rewrite Hnone.
Qed.

(** [trim] strips the white space of [String.prototype.trim], the
    no-break space U+00A0 (bytes C2 A0) and the line separator U+2028
    (E2 80 A8) included. *)
Lemma trim_strips_unicode_space :
  Str.trim (Sample.nbsp +:+ " " +:+ Sample.goodBody +:+ Sample.lineSeparator
              +:+ Sample.nbsp) = Sample.goodBody.
Proof. reflexivity. Qed.

End GatewayFacts.

(** C7 (amended): a request from whose body no transaction hash is
    extracted is answered 400 "Transaction hash required" with no effect at
    all: no pipeline is started and the state is unchanged.  That is the
    case when the body (trimmed, outer quotes stripped) parses as JSON to a
    value without a truthy [txHash] field, and when it does not parse and
    lacks the text "txHash:" or the text "0x".  A body that does not parse
    (or parses to null) and holds both texts goes through the fallback:
    the text between its first and second colon, braces removed and
    trimmed, is the hash; when that text is blank the request is rejected
    in the same way, otherwise the pipeline of the route runs on it. *)
Theorem gateway_rejects_missing_hash (JSON_parse : string → option JsVal)
    (parseLog : Chain → Log → Parse) (env : PipelineEnv) (body : string) (srv : Server) :
  let clean := stripQuotes (Str.trim body) in
  let rejected :=
    ([], srv, inr (mkResponse 400 (PError "Transaction hash required"))) in
  let deposit := onProcessDeposit JSON_parse parseLog env body srv in
  let withdrawal := onProcessWithdrawal JSON_parse parseLog env body srv in
  ((truthy_opt (extractTxHash JSON_parse body) = false ∨
    match JSON_parse clean with
    | Some (JObj fields) => truthy_opt (assoc "txHash" fields) = false
    | Some JNull | None =>
        Str.includes clean "txHash:" && Str.includes clean "0x" = false
    | Some _ => True
    end) →
   deposit = rejected ∧ withdrawal = rejected) ∧
  (JSON_parse clean = None ∨ JSON_parse clean = Some JNull →
   Str.includes clean "txHash:" = true → Str.includes clean "0x" = true →
   ∃ piece,
     Str.split ":" (Str.removeBraces clean) !! 1%nat = Some piece ∧
     extractTxHash JSON_parse body = Some (JStr (Str.trim piece)) ∧
     (Str.trim piece = "" → deposit = rejected ∧ withdrawal = rejected) ∧
     (Str.trim piece ≠ "" →
      let hash := JStr (Str.trim piece) in
      let depositRun := processDepositByTxHash parseLog env hash (depositModule srv) in
      let withdrawalRun :=
        processWithdrawalByTxHash parseLog env hash (withdrawalModule srv) in
      trace deposit = trace depositRun ∧
      depositModule (store deposit) = store depositRun ∧
      trace withdrawal = trace withdrawalRun ∧
      withdrawalModule (store withdrawal) = store withdrawalRun)).
Proof.
  intros clean rejected deposit withdrawal. split.
  - intros Hno. apply rejected_without_hash.
    destruct Hno as [Hno | Hno]; [done | by apply extractTxHash_none].
  - intros Hparse Hkey Hox.
    destruct (extractTxHash_fallback JSON_parse body Hparse Hkey Hox)
      as (piece & Hpiece & Hhash).
    exists piece. split_and!; try done.
    + intros Hblank. apply rejected_without_hash. by rewrite Hhash, Hblank.
    + intros Hfull hash depositRun withdrawalRun.
      assert (Htruthy : truthy hash = true).
      { simpl. by rewrite (proj2 (String.eqb_neq _ _) Hfull). }
      destruct (onProcessDeposit_runs JSON_parse parseLog env body srv hash Hhash Htruthy).
      destruct (onProcessWithdrawal_runs JSON_parse parseLog env body srv hash
                  Hhash Htruthy).
      done.
Qed.

Lemma gateway_rejects_missing_hash_witness :
  Sample.JSON_parse "{}" = Some (JObj []) ∧
  onProcessDeposit Sample.JSON_parse Sample.parseLog Sample.depositEnv "{}" Sample.server0 =
    ([], Sample.server0, inr (mkResponse 400 (PError "Transaction hash required"))).
Proof.
  split; [reflexivity |].
  exact (proj1 (proj1 (gateway_rejects_missing_hash Sample.JSON_parse Sample.parseLog
                         Sample.depositEnv "{}" Sample.server0) (or_intror eq_refl))).
Defined.

(** C7, as stated, fails: the body [{txHash: 0xabc}] is not JSON, yet the
    fallback extraction passes 0xabc to the deposit pipeline, which mints,
    marks the deposit and is answered with status 200. *)
Lemma malformed_body_is_processed :
  let run := onProcessDeposit Sample.JSON_parse Sample.parseLog Sample.depositEnv
               Sample.looseBody Sample.server0 in
  Sample.JSON_parse (stripQuotes (Str.trim Sample.looseBody)) = None ∧
  outcome run =
    inr (mkResponse 200
           (PResult (Completed "0xid1" (JStr "0xabc") "0xdest"
                               99000000 100000000 1000000 "0xDest"))) ∧
  Mint "0xDest" 99000000 "0xid1" ∈ trace run ∧
  processedDeposits (depositModule (store run)) = ["0xid1"].
Proof.
  vm_compute. split_and!; try reflexivity.
  repeat first [ apply list_elem_of_here | apply list_elem_of_further ].
Qed.

(** ** The polling loops *)

Section Watchers.

Variable parseLog : Chain → Log → Parse.

Ltac keeps_cursors :=
  unfold KeepsCursors, outcome, store, trace;
  run_cases; simpl; split_and!; try done;
  repeat first [ apply Forall_nil_2 | apply Forall_cons_2 ]; simpl; done.

Lemma handleBscDeposit_keeps env event r :
  let run := handleBscDeposit parseLog env event r in
  KeepsCursors r (trace run) (store run) (outcome run).
Proof.
  destruct env as [ra h1 h2 sa wa].
  unfold handleBscDeposit. unfold_prog. keeps_cursors.
Qed.

Lemma handleUcBurn_keeps env event r :
  let run := handleUcBurn env event r in
  KeepsCursors r (trace run) (store run) (outcome run).
Proof.
  destruct env as [ra h1 h2 sa wa].
  unfold handleUcBurn. unfold_prog. keeps_cursors.
Qed.

Lemma KeepsCursors_nil r : KeepsCursors r [] r (inr tt).
Proof. unfold KeepsCursors. by split_and!. Qed.

Lemma KeepsCursors_trans r1 t1 r2 t2 r3 out :
  KeepsCursors r1 t1 r2 (inr tt) → KeepsCursors r2 t2 r3 out →
  KeepsCursors r1 (t1 ++ t2) r3 out.
Proof.
  unfold KeepsCursors.
  intros (_ & Hb & Hu & Hr & Hi & Hpb & Hpu & Hf) (Ho & Hb' & Hu' & Hr' & Hi' & Hpb' & Hpu' & Hf').
  split_and!; try congruence.
  apply Forall_app. split; [done |].
  eapply Forall_impl; [exact Hf' |].
  intros e. destruct e; try done. rewrite Hpb, Hpu. done.
Qed.

(** Dispatching a block's events one after the other. *)
Lemma forEach_keeps {A} (body : A → M Relayer unit) (xs : list A) :
  (∀ x r, let run := body x r in KeepsCursors r (trace run) (store run) (outcome run)) →
  ∀ r, let run := forEach body xs r in
       KeepsCursors r (trace run) (store run) (outcome run).
Proof.
  intros Hbody. induction xs as [| x xs IH]; intros r; simpl.
  - apply KeepsCursors_nil.
  - unfold bind. specialize (Hbody x r). simpl in Hbody.
    unfold trace, store, outcome in *.
    destruct (body x r) as [[t1 r1] o1]. simpl in *.
    assert (o1 = inr tt) as -> by apply Hbody.
    specialize (IH r1). simpl in IH.
    destruct (forEach body xs r1) as [[t2 r2] o2]. simpl in *.
    by eapply KeepsCursors_trans.
Qed.











(** A pass catches every error: it always returns. *)
Lemma bsc_step_returns env ce r :
  ∃ n, outcome (monitorBscDepositsStep parseLog env ce r) = inr n.
Proof.
  destruct env as [ha la he].
  unfold monitorBscDepositsStep, getNextBscRpc, createBscProvider, outcome.
  destruct ha as [head | msg]; [destruct (head >? bscLastBlock r) eqn:Hahead;
                                [destruct la as [events | msg] |] |].
  - pose proof (forEach_keeps
                  (λ ie, handleBscDeposit parseLog (he ie.1) ie.2) (indexed events)
                  (λ x r0, handleBscDeposit_keeps _ _ r0) r) as Hk.
    simpl in Hk. unfold trace, store, outcome in *.
    unfold_prog. simpl. rewrite Hahead. simpl.
    destruct (forEach _ (indexed events) r) as [[t1 r1] o1]. simpl in *.
    destruct Hk as (-> & _). simpl.
    destruct (head - bscLastBlock r <=? 1); simpl; by eexists.
  - unfold_prog. simpl. rewrite Hahead. simpl. run_cases; by eexists.
  - unfold_prog. simpl. rewrite Hahead. simpl. by eexists.
  - unfold_prog. simpl. run_cases; by eexists.
Qed.

Lemma uc_step_returns env r : outcome (monitorUcBurnsStep env r) = inr tt.
Proof.
  destruct env as [ha la he].
  unfold monitorUcBurnsStep, outcome.
  destruct ha as [head | msg]; [destruct (head >? ucLastBlock r) eqn:Hahead;
                                [destruct la as [events | msg] |] |].
  - pose proof (forEach_keeps
                  (λ ie, handleUcBurn (he ie.1) ie.2) (indexed events)
                  (λ x r0, handleUcBurn_keeps _ _ r0) r) as Hk.
    simpl in Hk. unfold trace, store, outcome in *.
    unfold_prog. simpl. rewrite Hahead. simpl.
    destruct (forEach _ (indexed events) r) as [[t1 r1] o1]. simpl in *.
    destruct Hk as (-> & _). simpl.
    by destruct (head - ucLastBlock r <=? 1).
  - unfold_prog. simpl. rewrite Hahead. simpl. by run_cases.
  - unfold_prog. simpl. by rewrite Hahead.
  - unfold_prog. simpl. by run_cases.
Qed.



(** *** The cursor the state manager holds *)














Lemma bsc_loop_cons env envs ce r t1 r1 n t2 r2 o2 :
  isRunning r = true →
  monitorBscDepositsStep parseLog env ce r = (t1, r1, inr n) →
  monitorBscDeposits parseLog envs n r1 = (t2, r2, o2) →
  monitorBscDeposits parseLog (env :: envs) ce r = (t1 ++ t2, r2, o2).
Proof.
  intros Hrun Hs Hl. cbn [monitorBscDeposits]. unfold bind, get. cbn [fst snd].
  by rewrite Hrun, Hs, Hl.
Qed.

Lemma uc_loop_cons env envs r t1 r1 t2 r2 o2 :
  isRunning r = true →
  monitorUcBurnsStep env r = (t1, r1, inr tt) →
  monitorUcBurns envs r1 = (t2, r2, o2) →
  monitorUcBurns (env :: envs) r = (t1 ++ t2, r2, o2).
Proof.
  intros Hrun Hs Hl. cbn [monitorUcBurns]. unfold bind, get. cbn [fst snd].
  by rewrite Hrun, Hs, Hl.
Qed.

Lemma bsc_loop_stopped envs ce r :
  isRunning r = false → monitorBscDeposits parseLog envs ce r = ([], r, inr ce).
Proof.
  intros Hrun. destruct envs as [| env envs]; [done |].
  cbn [monitorBscDeposits]. unfold bind, get. cbn [fst snd]. by rewrite Hrun.
Qed.

Lemma uc_loop_stopped envs r :
  isRunning r = false → monitorUcBurns envs r = ([], r, inr tt).
Proof.
  intros Hrun. destruct envs as [| env envs]; [done |].
  cbn [monitorUcBurns]. unfold bind, get. cbn [fst snd]. by rewrite Hrun.
Qed.




End Watchers.


(** ** Endpoint rotation and backoff *)

Section Backoff.

Variable parseLog : Chain → Log → Parse.




Lemma rate_limited_step env ce r msg :
  headAnswer env = Throws msg → rateLimitClass msg →
  let next := ((currentBscRpcIndex r + 1) `mod` length bscRpcEndpoints)%nat in
  monitorBscDepositsStep parseLog env ce r =
    ([ GetBlockNumber BSC; ConnectBsc (endpointAt next);
       Sleep (Z.min (5000 * 2 ^ (ce + 1 - 1)) 60000) ],
     setRpcIndex next r, inr (ce + 1)).
Proof.
  destruct env as [ha la he]. simpl. intros -> Hclass.
  unfold rateLimitClass in Hclass.
  unfold monitorBscDepositsStep, getNextBscRpc, createBscProvider. unfold_prog. simpl.
  by rewrite Hclass.
Qed.


(** A pass that finds the head at or behind the cursor. *)
Lemma bsc_step_idle env ce r head :
  headAnswer env = Ok head → head <= bscLastBlock r →
  monitorBscDepositsStep parseLog env ce r = ([GetBlockNumber BSC; Sleep 5000], r, inr ce).
Proof.
  destruct env as [ha la he]. simpl. intros -> Hle.
  assert (Hahead : (head >? bscLastBlock r) = false).
  { rewrite Z.gtb_ltb. apply Z.ltb_ge. lia. }
  unfold monitorBscDepositsStep. unfold_prog. simpl. by rewrite Hahead.
Qed.




End Backoff.




(** * Further properties *)

(** ** The StateManager *)

Section StateManagerFacts.

Import StateManager.

Lemma trace_runOps_cons o ops s :
  trace (runOps (o :: ops) s) =
  match outcome (runOp o s) with
  | inr _ => trace (runOp o s) ++ trace (runOps ops (store (runOp o s)))
  | inl _ => trace (runOp o s)
  end.
Proof.
  unfold runOps. simpl. unfold bind at 1. unfold outcome, store, trace.
  destruct (runOp o s) as [[t1 s1] [e | []]]; simpl; [done |].
  by destruct (forEach runOp ops s1) as [[t2 s2] r2].
Qed.

Lemma documentsWritten_app t1 t2 :
  documentsWritten (t1 ++ t2) = documentsWritten t1 ++ documentsWritten t2.
Proof. apply omap_app. Qed.

(** A call writes its memory or nothing; in the latter case the memory is
    as it was, provided the state has its [transactionHashes]. *)
Lemma runOp_write_through o s :
  is_Some (transactionHashes s) →
  is_Some (transactionHashes (store (runOp o s))) ∧
  (documentsWritten (trace (runOp o s)) = [fileImage (store (runOp o s))] ∨
   documentsWritten (trace (runOp o s)) = [] ∧ store (runOp o s) = s).
Proof.
  intros [m Hm].
  destruct o as [b | b | id | id | id src dst | id src dst | id dst];
    unfold runOp, store, trace.
  1-4: unfold_prog; simpl; run_cases; simpl; rewrite ?Hm; (split; [by eexists |]);
    first [by left | by right].
  1-2: unfold setTxHashes; unfold_prog; simpl; (split; [by eexists |]); by left.
  unfold updateDestTxHash. unfold_prog. simpl. rewrite Hm. simpl.
  assert (Hsame : withTransactionHashes m s = s) by (destruct s; simpl in *; by subst).
  destruct (foundTruthy _); simpl.
  - destruct (setDestOn id dst m _) as [e | obj']; simpl.
    + split; [by eexists |]. by right.
    + split; [by eexists |]. by left.
  - split; [by eexists |]. by right.
Qed.

Lemma NoDup_sliceLast n (l : list string) : NoDup l → NoDup (sliceLast n l).
Proof. unfold sliceLast. intros H. eapply sublist_NoDup; [done | apply sublist_drop]. Qed.

Lemma runOp_wellKept o s : WellKept s → WellKept (store (runOp o s)).
Proof.
  unfold WellKept. intros (Hd & Hb & Hld & Hlb).
  pose proof (runOp_processedOf DirDeposit o s) as Hpd.
  pose proof (runOp_processedOf DirBurn o s) as Hpb.
  simpl in Hpd, Hpb. rewrite Hpd, Hpb. clear Hpd Hpb.
  assert (Hpush : ∀ id l, NoDup l → id ∉ l → Z.of_nat (length l) <= 10000 →
            NoDup (pushBounded id l) ∧ Z.of_nat (length (pushBounded id l)) <= 10000).
  { intros id l Hnd Hid Hl. rewrite pushBounded_sliceLast. split.
    - apply NoDup_sliceLast, NoDup_app. split_and!; [done | | apply NoDup_singleton].
      intros x Hx ->%list_elem_of_singleton. done.
    - rewrite length_sliceLast by lia. lia. }
  destruct o; try done;
    (destruct (decide _) as [Hin | Hnot]; [done |]);
    (edestruct Hpush as [H1 H2]; [| exact Hnot | |]; [done | done |]);
    by split_and!.
Qed.

End StateManagerFacts.

(** X1: marking is idempotent: once [addProcessedDeposit] (or
    [addProcessedBurn]) has been called for an id, the id is reported as
    processed, and a further call for it changes nothing and writes nothing. *)
Theorem marking_is_idempotent (id : string) (s : State) :
  (let s1 := store (StateManager.addProcessedDeposit id s) in
   outcome (StateManager.isDepositProcessed id s1) = inr true ∧
   StateManager.addProcessedDeposit id s1 = ([], s1, inr tt)) ∧
  (let s1 := store (StateManager.addProcessedBurn id s) in
   outcome (StateManager.isBurnProcessed id s1) = inr true ∧
   StateManager.addProcessedBurn id s1 = ([], s1, inr tt)).
Proof.
  split; simpl.
  - assert (Hin : id ∈ processedDeposits (store (StateManager.addProcessedDeposit id s))).
    { unfold store. unfold_prog. run_cases; [done | apply elem_of_pushBounded]. }
    split.
    + unfold outcome. unfold_prog. simpl. by rewrite bool_decide_eq_true_2.
    + unfold StateManager.addProcessedDeposit at 1. unfold_prog. by rewrite decide_True.
  - assert (Hin : id ∈ processedBurns (store (StateManager.addProcessedBurn id s))).
    { unfold store. unfold_prog. run_cases; [done | apply elem_of_pushBounded]. }
    split.
    + unfold outcome. unfold_prog. simpl. by rewrite bool_decide_eq_true_2.
    + unfold StateManager.addProcessedBurn at 1. unfold_prog. by rewrite decide_True.
Qed.

(** X2: the processed lists stay well kept: when neither list holds an id
    twice nor more than 10000 ids, the same is true after any sequence of
    StateManager calls. *)
Theorem processed_lists_stay_well_kept (ops : list StateManager.Op) (s : State) :
  WellKept s → WellKept (store (StateManager.runOps ops s)).
Proof.
  revert s. apply runOps_invariant. apply runOp_wellKept.
Qed.

Lemma processed_lists_stay_well_kept_witness :
  WellKept (store (StateManager.runOps
                     [ StateManager.OpAddProcessedDeposit "0xa";
                       StateManager.OpAddProcessedDeposit "0xa";
                       StateManager.OpAddProcessedBurn "0xb" ]
                     StateManager.freshState)).
Proof.
  apply processed_lists_stay_well_kept.
  unfold WellKept. simpl. split_and!; [apply NoDup_nil_2 | apply NoDup_nil_2 | lia | lia].
Defined.

Lemma runOps_write_through ops s :
  is_Some (transactionHashes s) →
  is_Some (transactionHashes (store (StateManager.runOps ops s))) ∧
  (last (documentsWritten (trace (StateManager.runOps ops s))) =
     Some (fileImage (store (StateManager.runOps ops s))) ∨
   documentsWritten (trace (StateManager.runOps ops s)) = [] ∧
   store (StateManager.runOps ops s) = s).
Proof.
  revert s. induction ops as [| o ops IH]; intros s Hs.
  { split; [done |]. by right. }
  rewrite trace_runOps_cons, runOps_cons.
  destruct (runOp_write_through o s Hs) as [Hs' Hw].
  destruct (outcome (StateManager.runOp o s)).
  - split; [done |]. destruct Hw as [-> | [-> ->]]; [by left | by right].
  - destruct (IH _ Hs') as [Hs'' Hrest]. split; [done |].
    rewrite documentsWritten_app.
    destruct Hrest as [Hlast | [-> ->]].
    + left. rewrite last_app, Hlast. done.
    + rewrite app_nil_r. destruct Hw as [-> | [-> ->]]; [by left | by right].
Qed.

Lemma deposit_pipeline_documents (parseLog : Chain → Log → Parse) env tx s :
  Forall (λ document,
            processedBurns document = processedBurns s ∧
            lastBscBlock document = lastBscBlock s ∧
            lastUcBlock document = lastUcBlock s)
         (documentsWritten (trace (processDepositByTxHash parseLog env tx s))).
Proof.
  unfold processDepositByTxHash, trace; unfold_prog; simpl; run_cases; simpl;
    repeat constructor.
Qed.

Lemma withdrawal_pipeline_documents (parseLog : Chain → Log → Parse) env tx s :
  Forall (λ document,
            processedDeposits document = processedDeposits s ∧
            lastBscBlock document = lastBscBlock s ∧
            lastUcBlock document = lastUcBlock s)
         (documentsWritten (trace (processWithdrawalByTxHash parseLog env tx s))).
Proof.
  unfold processWithdrawalByTxHash, trace; unfold_prog; simpl; run_cases; simpl;
    repeat constructor.
Qed.

Lemma onProcessDeposit_documents (JSON_parse : string → option JsVal)
    (parseLog : Chain → Log → Parse) env body srv :
  Forall (λ document,
            processedBurns document = processedBurns (depositModule srv) ∧
            lastBscBlock document = lastBscBlock (depositModule srv) ∧
            lastUcBlock document = lastUcBlock (depositModule srv))
         (documentsWritten (trace (onProcessDeposit JSON_parse parseLog env body srv))).
Proof.
  destruct (truthy_opt (extractTxHash JSON_parse body)) eqn:Ht.
  - destruct (extractTxHash JSON_parse body) as [v |] eqn:Hx; [| done].
    rewrite (proj1 (onProcessDeposit_runs JSON_parse parseLog env body srv v Hx Ht)).
    apply deposit_pipeline_documents.
  - rewrite (proj1 (rejected_without_hash JSON_parse parseLog env body srv Ht)).
    apply Forall_nil_2.
Qed.

Lemma onProcessWithdrawal_documents (JSON_parse : string → option JsVal)
    (parseLog : Chain → Log → Parse) env body srv :
  Forall (λ document,
            processedDeposits document = processedDeposits (withdrawalModule srv) ∧
            lastBscBlock document = lastBscBlock (withdrawalModule srv) ∧
            lastUcBlock document = lastUcBlock (withdrawalModule srv))
         (documentsWritten (trace (onProcessWithdrawal JSON_parse parseLog env body srv))).
Proof.
  destruct (truthy_opt (extractTxHash JSON_parse body)) eqn:Ht.
  - destruct (extractTxHash JSON_parse body) as [v |] eqn:Hx; [| done].
    rewrite (proj1 (onProcessWithdrawal_runs JSON_parse parseLog env body srv v Hx Ht)).
    apply withdrawal_pipeline_documents.
  - rewrite (proj2 (rejected_without_hash JSON_parse parseLog env body srv Ht)).
    apply Forall_nil_2.
Qed.

Lemma jsGet_jsSet_eq id h obj : jsGet (jsSet id h obj) id = FoundEntry h.
Proof.
  unfold jsGet, jsSet.
  destruct (ownEntries obj !! id) as [h0 |] eqn:Hown; simpl.
  - by rewrite lookup_insert_eq.
  - destruct (String.eqb id "__proto__") eqn:Hp; simpl.
    + by rewrite Hown.
    + by rewrite lookup_insert_eq.
Qed.

Lemma jsGet_jsSet_ne id key h obj :
  key ≠ id → id ≠ "__proto__" ∨ is_Some (ownEntries obj !! id) →
  jsGet (jsSet id h obj) key = jsGet obj key.
Proof.
  intros Hne Hplain. unfold jsGet, jsSet.
  destruct (ownEntries obj !! id) as [h0 |] eqn:Hown; simpl.
  - by rewrite lookup_insert_ne.
  - destruct Hplain as [Hp | [? ?]]; [| done].
    rewrite (proj2 (String.eqb_neq id "__proto__") Hp). simpl.
    by rewrite lookup_insert_ne.
Qed.

Lemma getTransactionHashes_outcome key s :
  outcome (StateManager.getTransactionHashes key s) =
  inr match transactionHashes s with
      | None => NotFound
      | Some obj => if foundTruthy (jsGet obj key) then jsGet obj key else NotFound
      end.
Proof.
  unfold StateManager.getTransactionHashes, outcome. unfold_prog.
  by destruct (transactionHashes s).
Qed.

Lemma store_addDepositTxHashes id src dst s :
  transactionHashes (store (StateManager.addDepositTxHashes id src dst s)) =
  Some (jsSet id (mkTxHashes DirDeposit src dst BSC UC) (default ∅ (transactionHashes s))).
Proof. done. Qed.

Lemma store_addBurnTxHashes id src dst s :
  transactionHashes (store (StateManager.addBurnTxHashes id src dst s)) =
  Some (jsSet id (mkTxHashes DirBurn src dst UC BSC) (default ∅ (transactionHashes s))).
Proof. done. Qed.

(** X3: what [addDepositTxHashes] / [addBurnTxHashes] store under an id is
    what [getTransactionHashes] returns for it afterwards, and the call
    hands the state to the file once.  The reads of the other ids are as
    before, unless the id is '__proto__' and the object has no own property
    of that name: then the entry becomes the prototype of the object; it is
    not an own property, so the document written does not hold it, and a
    read of 'type' finds the type of that entry. *)
Theorem tx_hashes_insert_lookup (id key : string) (src : JsVal) (dst : option string)
    (s : State) :
  let obj := default ∅ (transactionHashes s) in
  (let run := StateManager.addDepositTxHashes id src dst s in
   outcome (StateManager.getTransactionHashes id (store run)) =
     inr (FoundEntry (mkTxHashes DirDeposit src dst BSC UC)) ∧
   (key ≠ id → is_Some (transactionHashes s) →
    id ≠ "__proto__" ∨ is_Some (ownEntries obj !! id) →
    outcome (StateManager.getTransactionHashes key (store run)) =
    outcome (StateManager.getTransactionHashes key s)) ∧
   trace run = [WriteStateFile (fileImage (store run))]) ∧
  (let run := StateManager.addBurnTxHashes id src dst s in
   outcome (StateManager.getTransactionHashes id (store run)) =
     inr (FoundEntry (mkTxHashes DirBurn src dst UC BSC)) ∧
   (key ≠ id → is_Some (transactionHashes s) →
    id ≠ "__proto__" ∨ is_Some (ownEntries obj !! id) →
    outcome (StateManager.getTransactionHashes key (store run)) =
    outcome (StateManager.getTransactionHashes key s)) ∧
   trace run = [WriteStateFile (fileImage (store run))]) ∧
  (ownEntries obj !! "__proto__" = None →
   let run := StateManager.addDepositTxHashes "__proto__" src dst s in
   ownEntries (default ∅ (transactionHashes (store run))) = ownEntries obj ∧
   (ownEntries obj !! "type" = None →
    outcome (StateManager.getTransactionHashes "type" (store run)) =
      inr (FoundValue (JStr "deposit")))).
Proof.
  intros obj. subst obj.
  pose proof (jsGet_jsSet_eq id) as Hget.
  pose proof (λ h obj, jsGet_jsSet_ne id key h obj) as Hframe.
  cbv zeta. split_and!; rewrite ?getTransactionHashes_outcome, ?store_addDepositTxHashes,
    ?store_addBurnTxHashes.
  - by rewrite Hget.
  - intros Hne [obj Hobj] Hplain. rewrite Hobj in *. simpl in Hplain |- *.
    by rewrite Hframe.
  - done.
  - by rewrite Hget.
  - intros Hne [obj Hobj] Hplain. rewrite Hobj in *. simpl in Hplain |- *.
    by rewrite Hframe.
  - done.
  - intros Hown.
    rewrite ?getTransactionHashes_outcome, ?store_addDepositTxHashes,
    ?store_addBurnTxHashes.
    unfold jsSet, jsGet. rewrite Hown. simpl. split; [done |].
    intros Htype. by rewrite Htype.
Qed.

Lemma tx_hashes_insert_lookup_witness :
  let run := StateManager.addDepositTxHashes "0xid1" (JStr "0xabc") (Some "0xdest")
               StateManager.freshState in
  outcome (StateManager.getTransactionHashes "0xother" (store run)) = inr NotFound.
Proof.
  refine (proj1 (proj2 (proj1 (tx_hashes_insert_lookup "0xid1" "0xother" (JStr "0xabc")
                                 (Some "0xdest") StateManager.freshState)))
            _ _ _).
  - discriminate.
  - by eexists.
  - left. discriminate.
Defined.

(** X4: [updateDestTxHash] acts on whatever the read of the id finds.  On
    an entry it replaces the destination hash, keeps the type, the source
    hash and the chains, and hands the state to the file.  On an id for
    which nothing is found it does nothing.  On the name of a function of
    [Object.prototype], 'constructor' for one, it finds that function, and
    hands the unchanged state to the file; and on the [timestamp] of an
    entry that is the prototype it throws a TypeError without a write. *)
Theorem updateDestTxHash_known_and_unknown (id dest : string) (s : State) :
  let run := StateManager.updateDestTxHash id dest s in
  let obj := default ∅ (transactionHashes s) in
  let unchanged := StateManager.withTransactionHashes obj s in
  match jsGet obj id with
  | FoundEntry h =>
      outcome (StateManager.getTransactionHashes id (store run)) =
        inr (FoundEntry (mkTxHashes (txType h) (sourceTxHash h) (Some dest)
                                    (sourceChain h) (destChain h))) ∧
      trace run = [WriteStateFile (fileImage (store run))] ∧
      outcome run = inr tt
  | NotFound => run = ([], unchanged, inr tt)
  | FoundMethod _ => run = ([WriteStateFile (fileImage unchanged)], unchanged, inr tt)
  | FoundObjectPrototype _ =>
      trace run = [WriteStateFile (fileImage unchanged)] ∧ outcome run = inr tt
  | FoundTimestamp => trace run = [] ∧ store run = unchanged ∧ ∃ e, outcome run = inl e
  | FoundValue v => truthy v = false → run = ([], unchanged, inr tt)
  end.
Proof.
  simpl. unfold StateManager.updateDestTxHash, StateManager.getTransactionHashes,
    outcome, store, trace. unfold_prog. simpl.
  destruct (jsGet (default ∅ (transactionHashes s)) id) as [h | d | n | v | |] eqn:Hget;
    simpl; try done.
  - split; [| done].
    pose proof (jsGet_jsSet_eq id (StateManager.withDest dest h)
                  (default ∅ (transactionHashes s))) as Hafter.
    by rewrite Hafter.
  - by intros ->.
  - split_and!; try done. by eexists.
Qed.

Lemma updateDestTxHash_known_and_unknown_witness :
  StateManager.updateDestTxHash "constructor" "0xd" StateManager.freshState =
    ([WriteStateFile StateManager.freshState], StateManager.freshState, inr tt).
Proof.
  exact (updateDestTxHash_known_and_unknown "constructor" "0xd" StateManager.freshState).
Defined.

(** X5: a StateManager writes its own memory.  The last document a
    sequence of calls hands to the state file is the state in memory at the
    end, own properties only, when the state has its [transactionHashes].
    Whether the writes land is not known to the program; and the document
    is the memory of that instance alone: every document the deposit route
    hands over carries the processed burns and the cursors of the state
    manager of process-deposit.js as they were before the request, and
    every document of the withdrawal route the processed deposits of the
    state manager of process-withdrawal.js, whatever the other module has
    marked in between. *)
Theorem state_file_follows_memory (JSON_parse : string → option JsVal)
    (parseLog : Chain → Log → Parse) (ops : list StateManager.Op) (s : State)
    (env : PipelineEnv) (body : string) (srv : Server) :
  (is_Some (transactionHashes s) →
   ∀ document, last (documentsWritten (trace (StateManager.runOps ops s))) = Some document →
               document = fileImage (store (StateManager.runOps ops s))) ∧
  Forall (λ document,
            processedBurns document = processedBurns (depositModule srv) ∧
            lastBscBlock document = lastBscBlock (depositModule srv) ∧
            lastUcBlock document = lastUcBlock (depositModule srv))
         (documentsWritten (trace (onProcessDeposit JSON_parse parseLog env body srv))) ∧
  Forall (λ document,
            processedDeposits document = processedDeposits (withdrawalModule srv) ∧
            lastBscBlock document = lastBscBlock (withdrawalModule srv) ∧
            lastUcBlock document = lastUcBlock (withdrawalModule srv))
         (documentsWritten (trace (onProcessWithdrawal JSON_parse parseLog env body srv))).
Proof.
  split_and!.
  - intros Hs document Hlast.
    destruct (runOps_write_through ops s Hs) as (_ & [Hw | [Hw _]]).
    + rewrite Hw in Hlast. by injection Hlast as <-.
    + by rewrite Hw in Hlast.
  - apply onProcessDeposit_documents.
  - apply onProcessWithdrawal_documents.
Qed.

(** After a deposit request the module of process-deposit.js holds the
    deposit id; the documents a withdrawal request then writes hold no
    processed deposit. *)
Lemma state_file_follows_memory_witness :
  let after := store (onProcessDeposit Sample.JSON_parse Sample.parseLog Sample.depositEnv
                        Sample.goodBody Sample.server0) in
  let withdrawal := onProcessWithdrawal Sample.JSON_parse Sample.parseLog Sample.burnEnv
                      Sample.goodBody after in
  processedDeposits (depositModule after) = ["0xid1"] ∧
  length (documentsWritten (trace withdrawal)) = 2%nat ∧
  Forall (λ document,
            processedDeposits document = [] ∧
            lastBscBlock document = None ∧
            lastUcBlock document = None)
         (documentsWritten (trace withdrawal)).
Proof.
  split_and!; [reflexivity | reflexivity |].
  exact (proj2 (proj2 (state_file_follows_memory Sample.JSON_parse Sample.parseLog []
                         StateManager.freshState Sample.burnEnv Sample.goodBody
                         (store (onProcessDeposit Sample.JSON_parse Sample.parseLog
                                   Sample.depositEnv Sample.goodBody Sample.server0))))).
Defined.

(** X6: a processed list changes only through its own add call: a sequence
    of StateManager calls without an add for a direction leaves the
    processed list of that direction as it was. *)
Theorem other_calls_keep_processed_list (d : Direction) (ops : list StateManager.Op)
    (s : State) :
  StateManager.adds d ops = 0%nat →
  processedOf d (store (StateManager.runOps ops s)) = processedOf d s.
Proof.
  revert s. induction ops as [| o ops IH]; intros s Hadds; [done |].
  rewrite runOps_cons. rewrite adds_cons in Hadds.
  destruct (runOp_processedOf_cases d o s) as [Hsame | (Hadd & _)].
  - destruct (outcome (StateManager.runOp o s)); [done |].
    rewrite IH; [done | destruct (StateManager.isAdd d o); lia].
  - rewrite Hadd in Hadds. lia.
Qed.

Lemma other_calls_keep_processed_list_witness :
  processedDeposits
    (store (StateManager.runOps
              [ StateManager.OpAddProcessedBurn "0xb";
                StateManager.OpAddDepositTxHashes "0xa" (JStr "0xabc") None;
                StateManager.OpSetLastUcBlock 9 ]
              (mkState None None ["0xa"] [] None))) = ["0xa"].
Proof.
  exact (other_calls_keep_processed_list DirDeposit
           [ StateManager.OpAddProcessedBurn "0xb";
             StateManager.OpAddDepositTxHashes "0xa" (JStr "0xabc") None;
             StateManager.OpSetLastUcBlock 9 ]
           (mkState None None ["0xa"] [] None) eq_refl).
Defined.

(** X7: [loadState] takes the state from the file exactly when the file
    parses to an object whose [processedDeposits] and [processedBurns] are
    present and not null, and then returns the parsed document as it is;
    in every other case it returns the fresh state. *)
Theorem loadState_from_file_iff (JSON_parse : string → option JsVal)
    (f : StateManager.StateFile) (v : JsVal) :
  (StateManager.loadState JSON_parse f = StateManager.FromFile v ↔
   ∃ data fields deposits burns,
     f = StateManager.Contents data ∧ JSON_parse data = Some v ∧ v = JObj fields ∧
     assoc "processedDeposits" fields = Some deposits ∧ deposits ≠ JNull ∧
     assoc "processedBurns" fields = Some burns ∧ burns ≠ JNull) ∧
  (∀ st, StateManager.loadState JSON_parse f = StateManager.Fresh st →
         st = StateManager.freshState).
Proof.
  unfold StateManager.loadState, StateManager.tryLoad. split; [split |].
  - destruct f as [| msg | data]; try done.
    destruct (JSON_parse data) as [parsed |] eqn:Hp; [| done].
    destruct parsed; simpl; try done.
    destruct (assoc "processedDeposits" fields) as [[] |] eqn:Hd; simpl; try done;
      destruct (assoc "processedBurns" fields) as [[] |] eqn:Hb; simpl; try done;
      intros [= <-]; by eexists data, fields, _, _.
  - intros (data & fields & deposits & burns & -> & -> & -> & Hd & Hdn & Hb & Hbn).
    simpl. rewrite Hd, Hb. by destruct deposits, burns.
  - intros st. repeat case_match; congruence.
Qed.

(** ** The on-demand pipelines behind the gateway *)

(** X8: the withdrawal route never answers 500 for a request with a hash:
    the pipeline catches every error, so the answer is 200 with a completed
    result or 400; a receipt that is missing, reverted or without Burn
    event is answered 400 with the failure object carrying the message, and
    so is an RPC error while fetching the receipt; in these cases the state
    is as before. *)
Theorem withdrawal_failures_answer_400 (JSON_parse : string → option JsVal)
    (parseLog : Chain → Log → Parse) (env : PipelineEnv) (body : string)
    (srv : Server) (txHash : JsVal) :
  extractTxHash JSON_parse body = Some txHash → truthy txHash = true →
  let pipeline := processWithdrawalByTxHash parseLog env txHash (withdrawalModule srv) in
  let run := onProcessWithdrawal JSON_parse parseLog env body srv in
  (∃ r, outcome pipeline = inr r ∧ outcome run = inr (respond r) ∧
        (statusCode (respond r) = 200 ∨ statusCode (respond r) = 400)) ∧
  (∀ receipt e,
     receiptAnswer env = Ok receipt →
     EventVerifierSpec.verify parseLog UC "Burn" receipt = inl e →
     outcome run =
       inr (mkResponse 400 (PResult (Failed (EventVerifierSpec.message UC e) txHash))) ∧
     store run = srv) ∧
  (∀ msg,
     receiptAnswer env = Throws msg →
     outcome run = inr (mkResponse 400 (PResult (Failed msg txHash))) ∧ store run = srv).
Proof.
  intros Hx Ht. simpl.
  unfold onProcessWithdrawal. unfold_prog. rewrite Hx, Ht.
  destruct env as [ra h1 h2 sa wa]. simpl.
  split_and!.
  - unfold processWithdrawalByTxHash, outcome, respond. unfold_prog.
    run_cases; eexists; split_and!; try done; auto.
  - intros receipt e -> Hv. unfold EventVerifierSpec.verify in Hv.
    unfold processWithdrawalByTxHash, outcome, store, respond. unfold_prog. simpl.
    destruct receipt as [r |]; simpl; [| simplify_eq; by destruct srv].
    unfold statusIsOne. rewrite findNamed_decodeAll.
    destruct (bool_decide (status r = Some 1)); simpl; [| simplify_eq; by destruct srv].
    destruct (EventVerifierSpec.matching _ _) as [| ev rest]; simpl;
      [simplify_eq; by destruct srv | discriminate].
  - intros msg ->. unfold processWithdrawalByTxHash, outcome, store, respond. unfold_prog.
    simpl. by destruct srv.
Qed.

Lemma withdrawal_failures_answer_400_witness :
  outcome (onProcessWithdrawal Sample.JSON_parse Sample.parseLog
             (mkEnv (Ok None) (Ok 100) (Ok 102) (Ok "0xdest") (Ok "0xdest"))
             Sample.goodBody Sample.server0) =
  inr (mkResponse 400 (PResult (Failed "Transaction receipt not found" (JStr "0xabc")))).
Proof.
  exact (proj1 (proj1 (proj2 (withdrawal_failures_answer_400 Sample.JSON_parse
                  Sample.parseLog
                  (mkEnv (Ok None) (Ok 100) (Ok 102) (Ok "0xdest") (Ok "0xdest"))
                  Sample.goodBody Sample.server0 (JStr "0xabc") eq_refl eq_refl))
                  None EventVerifierSpec.ReceiptNotFound eq_refl eq_refl)).
Defined.

(** X9: the deposit route answers every failure of its pipeline with 500
    "Internal server error": the pipeline never returns a failure object,
    because its error handler itself throws; so a receipt that is missing,
    reverted or without Deposit event, and an RPC error, give 500, with
    the state as before.  200 is the answer to a completed run and 400 to a
    deposit already processed. *)
Theorem deposit_failures_answer_500 (JSON_parse : string → option JsVal)
    (parseLog : Chain → Log → Parse) (env : PipelineEnv) (body : string)
    (srv : Server) (txHash : JsVal) :
  extractTxHash JSON_parse body = Some txHash → truthy txHash = true →
  let pipeline := processDepositByTxHash parseLog env txHash (depositModule srv) in
  let run := onProcessDeposit JSON_parse parseLog env body srv in
  match outcome pipeline with
  | inr (Completed id src dst net orig fee rcp) =>
      outcome run = inr (mkResponse 200 (PResult (Completed id src dst net orig fee rcp)))
  | inr (AlreadyProcessed m) =>
      outcome run = inr (mkResponse 400 (PResult (AlreadyProcessed m)))
  | inr (Failed _ _) => False
  | inl _ => outcome run = inr (mkResponse 500 (PError "Internal server error"))
  end ∧
  (∀ receipt e,
     receiptAnswer env = Ok receipt →
     EventVerifierSpec.verify parseLog BSC "Deposit" receipt = inl e →
     outcome run = inr (mkResponse 500 (PError "Internal server error")) ∧
     store run = srv) ∧
  (∀ msg,
     receiptAnswer env = Throws msg →
     outcome run = inr (mkResponse 500 (PError "Internal server error")) ∧
     store run = srv).
Proof.
  intros Hx Ht. simpl.
  unfold onProcessDeposit. unfold_prog. rewrite Hx, Ht.
  destruct env as [ra h1 h2 sa wa]. simpl.
  split_and!.
  - unfold processDepositByTxHash, outcome, respond. unfold_prog.
    run_cases; done.
  - intros receipt e -> Hv. unfold EventVerifierSpec.verify in Hv.
    unfold processDepositByTxHash, outcome, store, respond. unfold_prog. simpl.
    destruct receipt as [r |]; simpl; [| by destruct srv].
    unfold statusIsOne. rewrite findNamed_decodeAll.
    destruct (bool_decide (status r = Some 1)); simpl; [| by destruct srv].
    destruct (EventVerifierSpec.matching _ _) as [| ev rest]; simpl;
      [by destruct srv | discriminate].
  - intros msg ->. unfold processDepositByTxHash, outcome, store, respond. unfold_prog.
    simpl. by destruct srv.
Qed.

Lemma deposit_failures_answer_500_witness :
  outcome (onProcessDeposit Sample.JSON_parse Sample.parseLog
             (mkEnv (Ok None) (Ok 100) (Ok 102) (Ok "0xdest") (Ok "0xdest"))
             Sample.goodBody Sample.server0) =
  inr (mkResponse 500 (PError "Internal server error")).
Proof.
  exact (proj1 (proj1 (proj2 (deposit_failures_answer_500 Sample.JSON_parse
                  Sample.parseLog
                  (mkEnv (Ok None) (Ok 100) (Ok 102) (Ok "0xdest") (Ok "0xdest"))
                  Sample.goodBody Sample.server0 (JStr "0xabc") eq_refl eq_refl))
                  None EventVerifierSpec.ReceiptNotFound eq_refl eq_refl)).
Defined.

(** X10: a deposit whose mint was sent but whose receipt wait failed is
    not marked, so the next request for the same transaction sends the mint
    again: the pipeline gives at-least-once submission, not at-most-once. *)
Theorem failed_wait_is_submitted_again (parseLog : Chain → Log → Parse)
    (receipt : Receipt) (ev : LogDescription) (h1 h2 h1' h2' : Z)
    (sent err sent' done : string) (tx : JsVal) (s : State) :
  EventVerifierSpec.verify parseLog BSC "Deposit" (Some receipt) = inr ev →
  eventId (args ev) ∉ processedDeposits s →
  let mint := Mint (destinationAddress (args ev)) (netAmount (amount (args ev)))
                   (eventId (args ev)) in
  let first := processDepositByTxHash parseLog
                 (mkEnv (Ok (Some receipt)) (Ok h1) (Ok h2) (Ok sent) (Throws err)) tx s in
  let second := processDepositByTxHash parseLog
                  (mkEnv (Ok (Some receipt)) (Ok h1') (Ok h2') (Ok sent') (Ok done))
                  tx (store first) in
  mint ∈ trace first ∧ store first = s ∧
  mint ∈ trace second ∧
  outcome second =
    inr (Completed (eventId (args ev)) tx done (netAmount (amount (args ev)))
                   (amount (args ev)) (feeAmount (amount (args ev)))
                   (destinationAddress (args ev))).
Proof.
  intros Hv Hnew. simpl.
  unfold EventVerifierSpec.verify in Hv.
  assert (Hfind : findNamed "Deposit" (List.map (parseOrNull parseLog BSC) (logs receipt))
                  = Some ev ∧ statusIsOne receipt = true).
  { unfold statusIsOne. rewrite findNamed_decodeAll.
    destruct (bool_decide (status receipt = Some 1)); [| discriminate].
    destruct (EventVerifierSpec.matching _ _) as [| ev' rest]; [discriminate |].
    by simplify_eq. }
  destruct Hfind as [Hfind Hstatus].
  assert (Hfirst : store (processDepositByTxHash parseLog
                     (mkEnv (Ok (Some receipt)) (Ok h1) (Ok h2) (Ok sent) (Throws err)) tx s)
                   = s).
  { unfold processDepositByTxHash, store. unfold_prog. simpl.
    rewrite Hstatus, Hfind. simpl. rewrite bool_decide_eq_false_2 by done.
    run_cases; done. }
  rewrite Hfirst.
  unfold processDepositByTxHash, trace, outcome. unfold_prog. simpl.
  rewrite Hstatus, Hfind. simpl. rewrite bool_decide_eq_false_2 by done. simpl.
  destruct (h1 - blockNumber receipt <? requiredConfirmations),
    (h1' - blockNumber receipt <? requiredConfirmations); simpl;
    rewrite decide_False by done; simpl.
  all: split_and!; try done.
  all: repeat first [ apply list_elem_of_here | apply list_elem_of_further ].
Qed.

Lemma failed_wait_is_submitted_again_witness :
  let first := processDepositByTxHash Sample.parseLog
                 (mkEnv (Ok (Some Sample.depositReceipt)) (Ok 100) (Ok 102)
                        (Ok "0xsent") (Throws "timeout")) Sample.txHash
                 StateManager.freshState in
  Mint "0xDest" 99000000 "0xid1" ∈ trace first ∧
  Mint "0xDest" 99000000 "0xid1" ∈
    trace (processDepositByTxHash Sample.parseLog Sample.depositEnv Sample.txHash
             (store first)).
Proof.
  pose proof (failed_wait_is_submitted_again Sample.parseLog Sample.depositReceipt
                (mkDesc "Deposit" (mkArgs "0xUser" 100000000 "0xid1" "0xDest"))
                100 102 100 102 "0xsent" "timeout" "0xdest" "0xdest" Sample.txHash
                StateManager.freshState eq_refl (not_elem_of_nil _)) as (H1 & _ & H3 & _).
  split; [exact H1 | exact H3].
Defined.

(** X11: a run of an on-demand pipeline either leaves the state as it was
    or moves its own side only: the id is pushed on the processed list of
    its direction and gets its entry in the transaction-hash map, while the
    block cursors, the processed list of the other direction and the entries
    of the other ids stay as they were. *)
Theorem pipeline_moves_its_own_side_only (parseLog : Chain → Log → Parse)
    (d : Direction) (env : PipelineEnv) (tx : JsVal) (s : State) :
  let run := process parseLog d env tx s in
  store run = s ∨
  ∃ id, (id ∉ processedOf d s) ∧ OnlyOneSide d id s (store run) ∧
        ∃ to amt, submission d to amt id ∈ trace run.
Proof.
  destruct env as [ra h1 h2 sa wa].
  destruct d; simpl; unfold store, trace, OnlyOneSide, StateManager.setTxHashes.
  - unfold processDepositByTxHash. unfold_prog.
    run_cases; decide_hyps; try (by left); try contradiction.
    all: right; eexists; split; [eassumption |]; simpl.
    all: split; [split_and!; try done;
                 [ rewrite lookup_jsSet_eq; by eexists
                 | intros key Hk; by rewrite lookup_jsSet_ne ] |].
    all: eexists _, _;
      repeat first [ apply list_elem_of_here | apply list_elem_of_further ].
  - unfold processWithdrawalByTxHash. unfold_prog.
    run_cases; decide_hyps; try (by left); try contradiction.
    all: right; eexists; split; [eassumption |]; simpl.
    all: split; [split_and!; try done;
                 [ rewrite lookup_jsSet_eq; by eexists
                 | intros key Hk; by rewrite lookup_jsSet_ne ] |].
    all: eexists _, _;
      repeat first [ apply list_elem_of_here | apply list_elem_of_further ].
Qed.

(** ** The event handlers of the watchers *)

(** X12: once the handling of an event has written the state file, that
    is, has completed, every further handling of the same event, whatever
    the chains would answer, does nothing at all: no call, no write. *)
Theorem handled_event_is_skipped (parseLog : Chain → Log → Parse) (d : Direction)
    (env env' : PipelineEnv) (event : EventLog) (r : Relayer) :
  let run := handleEvent parseLog d env event r in
  ¬ noWrites (trace run) →
  eventId (evArgs event) ∈ processedSetOf d (store run) ∧
  handleEvent parseLog d env' event (store run) = ([], store run, inr tt).
Proof.
  destruct env as [ra h1 h2 sa wa].
  destruct d; simpl; unfold trace, store; intros Hw.
  - assert (Hin : eventId (evArgs event) ∈ processedDepositsSet
                    (handleBscDeposit parseLog (mkEnv ra h1 h2 sa wa) event r).1.2).
    { revert Hw. unfold handleBscDeposit. unfold_prog.
      run_cases; simpl; intros Hw; try solve [exfalso; apply Hw; solve_forall]; set_solver. }
    split; [done |].
    unfold handleBscDeposit at 1. unfold_prog. by rewrite decide_True.
  - assert (Hin : eventId (evArgs event) ∈ processedBurnsSet
                    (handleUcBurn (mkEnv ra h1 h2 sa wa) event r).1.2).
    { revert Hw. unfold handleUcBurn. unfold_prog.
      run_cases; simpl; intros Hw; try solve [exfalso; apply Hw; solve_forall]; set_solver. }
    split; [done |].
    unfold handleUcBurn at 1. unfold_prog. by rewrite decide_True.
Qed.

Lemma handled_event_is_skipped_witness :
  let run := handleBscDeposit Sample.parseLog Sample.depositEnv Sample.depositEvent
               Sample.relayer0 in
  handleBscDeposit Sample.parseLog Sample.depositEnv Sample.depositEvent (store run) =
    ([], store run, inr tt).
Proof.
  refine (proj2 (handled_event_is_skipped Sample.parseLog DirDeposit Sample.depositEnv
                   Sample.depositEnv Sample.depositEvent Sample.relayer0 _)).
  vm_compute. intros H.
  do 6 (apply Forall_cons in H as [_ H]).
  apply Forall_cons in H as [H _]. by apply H.
Defined.

(** X13: the deposit handler relays the event of the receipt, not the one
    it was called with: whatever it submits is the mint for the recipient,
    net amount and id of the first Deposit log of the fetched receipt, and
    that id is the id of the event handed over; with another id in the
    receipt nothing is submitted. *)
Theorem deposit_handler_relays_the_receipt_event (parseLog : Chain → Log → Parse)
    (env : PipelineEnv) (event : EventLog) (r : Relayer) :
  let run := handleBscDeposit parseLog env event r in
  Forall (λ e, submitted e = None ∨
               ∃ receipt ev,
                 receiptAnswer env = Ok (Some receipt) ∧
                 EventVerifierSpec.verify parseLog BSC "Deposit" (Some receipt) = inr ev ∧
                 eventId (args ev) = eventId (evArgs event) ∧
                 e = Mint (destinationAddress (args ev)) (netAmount (amount (args ev)))
                          (eventId (args ev)))
         (trace run).
Proof.
  destruct env as [ra h1 h2 sa wa]. simpl.
  match goal with |- Forall ?Q _ => set (P := Q) end.
  assert (HN : ∀ e, submitted e = None → P e) by (intros e He; by left).
  unfold handleBscDeposit, trace. unfold_prog.
  destruct (decide _); [by constructor |].
  destruct ra as [[receipt |] | mr]; simpl;
    try (clearbody P; run_cases; repeat constructor; by apply HN).
  rewrite findNamed_decodeAll. unfold statusIsOne.
  destruct (bool_decide (status receipt = Some 1)) eqn:Hst; simpl;
    [| clearbody P; run_cases; repeat constructor; by apply HN].
  destruct (EventVerifierSpec.matching _ _) as [| ev rest] eqn:Hm; simpl;
    [clearbody P; run_cases; repeat constructor; by apply HN |].
  destruct (String.eqb_spec (eventId (args ev)) (eventId (evArgs event))) as [Heq | Hne];
    simpl; [| clearbody P; run_cases; repeat constructor; by apply HN].
  assert (HP : P (Mint (destinationAddress (args ev)) (netAmount (amount (args ev)))
                       (eventId (args ev)))).
  { right. exists receipt, ev. split_and!; try done.
    unfold EventVerifierSpec.verify. by rewrite Hst, Hm. }
  clearbody P. clear Hst Hm.
  run_cases; repeat constructor; first [exact HP | by apply HN].
Qed.

(** X14: the burn handler never decodes the logs of the receipt it
    fetches: for an id that is not marked, with the head polls answered and
    a receipt of status 1, whatever its logs are, it submits the unlock for
    the recipient, net amount and id of the event it was called with. *)
Theorem burn_handler_relays_the_event_payload (env : PipelineEnv) (event : EventLog)
    (r : Relayer) (receipt : Receipt) (head : Z) :
  eventId (evArgs event) ∉ processedBurnsSet r →
  headFirst env = Ok head →
  (head - evBlockNumber event < requiredConfirmations → ∃ head', headSecond env = Ok head') →
  receiptAnswer env = Ok (Some receipt) →
  status receipt = Some 1 →
  Unlock (destinationAddress (evArgs event)) (netAmount (amount (evArgs event)))
         (eventId (evArgs event)) ∈ trace (handleUcBurn env event r).
Proof.
  destruct env as [ra h1 h2 sa wa]. simpl. intros Hnew -> Hsecond -> Hst.
  unfold handleUcBurn, trace. unfold_prog.
  rewrite decide_False by done. simpl.
  assert (Hone : statusIsOne receipt = true) by by apply bool_decide_eq_true_2.
  destruct (head - evBlockNumber event <? requiredConfirmations) eqn:Hlt.
  - destruct Hsecond as [head' ->]; [lia |].
    simpl. rewrite Hone. run_cases; set_solver.
  - simpl. rewrite Hone. run_cases; set_solver.
Qed.

Lemma burn_handler_relays_the_event_payload_witness :
  Unlock "0xDest" 99000000 "0xid2" ∈
    trace (handleUcBurn
             (mkEnv (Ok (Some (mkReceipt (Some 1) 100 []))) (Ok 100) (Ok 102)
                    (Ok "0xdest") (Ok "0xdest"))
             (mkEventLog (mkArgs "0xUser" 100000000 "0xid2" "0xDest") "0xabc" 100)
             Sample.relayer0).
Proof.
  apply (burn_handler_relays_the_event_payload
           (mkEnv (Ok (Some (mkReceipt (Some 1) 100 []))) (Ok 100) (Ok 102)
                  (Ok "0xdest") (Ok "0xdest"))
           (mkEventLog (mkArgs "0xUser" 100000000 "0xid2" "0xDest") "0xabc" 100)
           Sample.relayer0 (mkReceipt (Some 1) 100 []) 100).
  - simpl. set_solver.
  - reflexivity.
  - intros _. by exists 102.
  - reflexivity.
  - reflexivity.
Defined.

(** ** The polling loops over several passes *)

Section WatcherFacts.

Variable parseLog : Chain → Log → Parse.

Lemma queried_app t1 t2 : queried (t1 ++ t2) = queried t1 ++ queried t2.
Proof. apply omap_app. Qed.

Lemma connected_app t1 t2 : connected (t1 ++ t2) = connected t1 ++ connected t2.
Proof. apply omap_app. Qed.

Lemma keeps_queried r tr r' out : KeepsCursors r tr r' out → queried tr = [].
Proof.
  intros (_ & _ & _ & _ & _ & _ & _ & Hf).
  induction Hf as [| e tr He _ IH]; [done |].
  destruct e; simpl; done.
Qed.

Lemma handleBscDeposit_connects env event r :
  connected (trace (handleBscDeposit parseLog env event r)) = [].
Proof.
  destruct env as [ra h1 h2 sa wa].
  unfold handleBscDeposit, trace. unfold_prog. by run_cases.
Qed.

Lemma handleUcBurn_connects env event r :
  connected (trace (handleUcBurn env event r)) = [].
Proof.
  destruct env as [ra h1 h2 sa wa].
  unfold handleUcBurn, trace. unfold_prog. by run_cases.
Qed.

Lemma forEach_connects {A} (body : A → M Relayer unit) (xs : list A) :
  (∀ x r, connected (trace (body x r)) = []) →
  ∀ r, connected (trace (forEach body xs r)) = [].
Proof.
  intros Hbody. induction xs as [| x xs IH]; intros r; simpl; [done |].
  unfold bind. specialize (Hbody x r). unfold trace in *.
  destruct (body x r) as [[t1 r1] [e | []]]; simpl in *; [done |].
  specialize (IH r1). destruct (forEach body xs r1) as [[t2 r2] o2]. simpl in *.
  by rewrite connected_app, Hbody, IH.
Qed.

(** A pass that finds the head ahead of the cursor and has its query
    answered. *)
Lemma bsc_step_ahead env ce r head events :
  headAnswer env = Ok head → bscLastBlock r < head → logsAnswer env = Ok events →
  let run := monitorBscDepositsStep parseLog env ce r in
  let next := bscLastBlock r + 1 in
  outcome run = inr 0 ∧
  bscLastBlock (store run) = next ∧
  ucLastBlock (store run) = ucLastBlock r ∧
  isRunning (store run) = isRunning r ∧
  currentBscRpcIndex (store run) = currentBscRpcIndex r ∧
  lastBscBlock (stateManager (store run)) = Some next ∧
  queried (trace run) = [(BSC, next, next)] ∧
  connected (trace run) = [].
Proof.
  destruct env as [ha la he]. simpl. intros -> Hlt ->.
  assert (Hahead : (head >? bscLastBlock r) = true) by (apply Z.gtb_lt; lia).
  pose proof (forEach_keeps
                (λ ie, handleBscDeposit parseLog (he ie.1) ie.2) (indexed events)
                (λ x r0, handleBscDeposit_keeps parseLog _ _ r0) r) as Hk.
  pose proof (forEach_connects
                (λ ie, handleBscDeposit parseLog (he ie.1) ie.2) (indexed events)
                (λ x r0, handleBscDeposit_connects _ _ r0) r) as Hc.
  pose proof (keeps_queried _ _ _ _ Hk) as Hq.
  simpl in Hk. unfold monitorBscDepositsStep, trace, store, outcome in *.
  unfold_prog. simpl. rewrite Hahead. simpl.
  destruct (forEach _ (indexed events) r) as [[t1 r1] o1]. simpl in *.
  destruct Hk as (-> & Hb & Hu & Hr & Hi & _). simpl.
  destruct (head - bscLastBlock r <=? 1); simpl;
    rewrite !queried_app, !connected_app, Hq, Hc; by split_and!.
Qed.

Lemma uc_step_ahead env r head events :
  headAnswer env = Ok head → ucLastBlock r < head → logsAnswer env = Ok events →
  let run := monitorUcBurnsStep env r in
  let next := ucLastBlock r + 1 in
  outcome run = inr tt ∧
  ucLastBlock (store run) = next ∧
  bscLastBlock (store run) = bscLastBlock r ∧
  isRunning (store run) = isRunning r ∧
  currentBscRpcIndex (store run) = currentBscRpcIndex r ∧
  lastUcBlock (stateManager (store run)) = Some next ∧
  queried (trace run) = [(UC, next, next)] ∧
  connected (trace run) = [].
Proof.
  destruct env as [ha la he]. simpl. intros -> Hlt ->.
  assert (Hahead : (head >? ucLastBlock r) = true) by (apply Z.gtb_lt; lia).
  pose proof (forEach_keeps
                (λ ie, handleUcBurn (he ie.1) ie.2) (indexed events)
                (λ x r0, handleUcBurn_keeps _ _ r0) r) as Hk.
  pose proof (forEach_connects
                (λ ie, handleUcBurn (he ie.1) ie.2) (indexed events)
                (λ x r0, handleUcBurn_connects _ _ r0) r) as Hc.
  pose proof (keeps_queried _ _ _ _ Hk) as Hq.
  simpl in Hk. unfold monitorUcBurnsStep, trace, store, outcome in *.
  unfold_prog. simpl. rewrite Hahead. simpl.
  destruct (forEach _ (indexed events) r) as [[t1 r1] o1]. simpl in *.
  destruct Hk as (-> & Hb & Hu & Hr & Hi & _). simpl.
  destruct (head - ucLastBlock r <=? 1); simpl;
    rewrite !queried_app, !connected_app, Hq, Hc; by split_and!.
Qed.

Lemma bsc_loop_catches_up envs : ∀ ce r,
  isRunning r = true → aheadFrom (bscLastBlock r) envs →
  let run := monitorBscDeposits parseLog envs ce r in
  bscLastBlock (store run) = bscLastBlock r + Z.of_nat (length envs) ∧
  isRunning (store run) = true ∧
  queried (trace run) =
    (λ k, (BSC, bscLastBlock r + Z.of_nat k, bscLastBlock r + Z.of_nat k))
      <$> seq 1 (length envs) ∧
  (envs ≠ [] →
   outcome run = inr 0 ∧
   lastBscBlock (stateManager (store run)) =
     Some (bscLastBlock r + Z.of_nat (length envs))).
Proof.
  induction envs as [| env envs IH]; intros ce r Hrun Hahead; cbv zeta.
  - unfold store, trace. simpl. split_and!; [lia | done | done | done].
  - destruct Hahead as [(head & events & Hh & Hlt & Hl) Hrest].
    destruct (bsc_step_ahead env ce r head events Hh Hlt Hl)
      as (Ho & Hb & _ & Hr & _ & Hp & Hq & _).
    unfold outcome, store, trace in Ho, Hb, Hr, Hp, Hq.
    destruct (monitorBscDepositsStep parseLog env ce r) as [[t1 r1] o1] eqn:Hs.
    cbn [fst snd] in *. subst o1.
    rewrite <- Hb in Hrest.
    specialize (IH 0 r1 (eq_trans Hr Hrun) Hrest).
    cbv zeta in IH. unfold outcome, store, trace in IH.
    destruct (monitorBscDeposits parseLog envs 0 r1) as [[t2 r2] o2] eqn:Hloop.
    rewrite (bsc_loop_cons _ _ _ _ _ _ _ _ _ _ _ Hrun Hs Hloop).
    unfold outcome, store, trace.
    cbn [fst snd app length] in *.
    destruct IH as (IHb & IHr & IHq & IHo).
    split_and!.
    + lia.
    + done.
    + rewrite queried_app, Hq, IHq. cbn [seq fmap list_fmap app].
      f_equal.
      rewrite <- (fmap_S_seq 1), <- list_fmap_compose.
      apply list_fmap_ext. intros _ k _. unfold compose. rewrite Hb.
      f_equal; [f_equal |]; lia.
    + intros _. destruct envs as [| env' envs'].
      * cbn in Hloop. injection Hloop as <- <- <-.
        split; [done |]. rewrite Hp. first [done | f_equal; lia].
      * destruct IHo as [-> ->]; [done |]. split; [done |]. cbn [length]. first [done | f_equal; lia].
Qed.

Lemma uc_loop_catches_up envs : ∀ r,
  isRunning r = true → aheadFrom (ucLastBlock r) envs →
  let run := monitorUcBurns envs r in
  ucLastBlock (store run) = ucLastBlock r + Z.of_nat (length envs) ∧
  isRunning (store run) = true ∧
  queried (trace run) =
    (λ k, (UC, ucLastBlock r + Z.of_nat k, ucLastBlock r + Z.of_nat k))
      <$> seq 1 (length envs) ∧
  (envs ≠ [] →
   lastUcBlock (stateManager (store run)) =
     Some (ucLastBlock r + Z.of_nat (length envs))).
Proof.
  induction envs as [| env envs IH]; intros r Hrun Hahead; cbv zeta.
  - unfold store, trace. simpl. split_and!; [lia | done | done | done].
  - destruct Hahead as [(head & events & Hh & Hlt & Hl) Hrest].
    destruct (uc_step_ahead env r head events Hh Hlt Hl)
      as (Ho & Hb & _ & Hr & _ & Hp & Hq & _).
    unfold outcome, store, trace in Ho, Hb, Hr, Hp, Hq.
    destruct (monitorUcBurnsStep env r) as [[t1 r1] o1] eqn:Hs.
    cbn [fst snd] in *. subst o1.
    rewrite <- Hb in Hrest.
    specialize (IH r1 (eq_trans Hr Hrun) Hrest).
    cbv zeta in IH. unfold outcome, store, trace in IH.
    destruct (monitorUcBurns envs r1) as [[t2 r2] o2] eqn:Hloop.
    rewrite (uc_loop_cons _ _ _ _ _ _ _ _ Hrun Hs Hloop).
    unfold outcome, store, trace.
    cbn [fst snd app length] in *.
    destruct IH as (IHb & IHr & IHq & IHo).
    split_and!.
    + lia.
    + done.
    + rewrite queried_app, Hq, IHq. cbn [seq fmap list_fmap app].
      f_equal.
      rewrite <- (fmap_S_seq 1), <- list_fmap_compose.
      apply list_fmap_ext. intros _ k _. unfold compose. rewrite Hb.
      f_equal; [f_equal |]; lia.
    + intros _. destruct envs as [| env' envs'].
      * cbn in Hloop. injection Hloop as <- <- <-.
        rewrite Hp. first [done | f_equal; lia].
      * rewrite IHo by done. cbn [length]. first [done | f_equal; lia].
Qed.

End WatcherFacts.

(** X15: catching up.  While the head stays ahead of the cursor and the
    queries are answered, [n] passes of a running watcher move the cursor
    [n] blocks on: the blocks queried are the [n] blocks after the cursor,
    one by one and in order, none skipped and none queried twice, and the
    state file ends with the cursor at the last of them. *)
Theorem watchers_catch_up_block_by_block (parseLog : Chain → Log → Parse)
    (bscEnvs ucEnvs : list IterationEnv) (ce : Z) (r : Relayer) :
  isRunning r = true →
  aheadFrom (bscLastBlock r) bscEnvs →
  aheadFrom (ucLastBlock r) ucEnvs →
  (let run := monitorBscDeposits parseLog bscEnvs ce r in
   bscLastBlock (store run) = bscLastBlock r + Z.of_nat (length bscEnvs) ∧
   queried (trace run) =
     (λ k, (BSC, bscLastBlock r + Z.of_nat k, bscLastBlock r + Z.of_nat k))
       <$> seq 1 (length bscEnvs) ∧
   (bscEnvs ≠ [] →
    outcome run = inr 0 ∧
    lastBscBlock (stateManager (store run)) =
      Some (bscLastBlock r + Z.of_nat (length bscEnvs)))) ∧
  (let run := monitorUcBurns ucEnvs r in
   ucLastBlock (store run) = ucLastBlock r + Z.of_nat (length ucEnvs) ∧
   queried (trace run) =
     (λ k, (UC, ucLastBlock r + Z.of_nat k, ucLastBlock r + Z.of_nat k))
       <$> seq 1 (length ucEnvs) ∧
   (ucEnvs ≠ [] →
    lastUcBlock (stateManager (store run)) =
      Some (ucLastBlock r + Z.of_nat (length ucEnvs)))).
Proof.
  intros Hrun Hb Hu. split.
  - destruct (bsc_loop_catches_up parseLog bscEnvs ce r Hrun Hb) as (H1 & _ & H2 & H3).
    by split_and!.
  - destruct (uc_loop_catches_up ucEnvs r Hrun Hu) as (H1 & _ & H2 & H3).
    by split_and!.
Qed.

Lemma watchers_catch_up_block_by_block_witness :
  let envs := [Sample.iteration; mkIter (Ok 103) (Ok []) (λ _, Sample.depositEnv)] in
  let run := monitorBscDeposits Sample.parseLog envs 0 Sample.relayer0 in
  bscLastBlock (store run) = 102 ∧
  queried (trace run) = [(BSC, 101, 101); (BSC, 102, 102)].
Proof.
  destruct (watchers_catch_up_block_by_block Sample.parseLog
              [Sample.iteration; mkIter (Ok 103) (Ok []) (λ _, Sample.depositEnv)] []
              0 Sample.relayer0) as [(Hc & Hq & _) _].
  - reflexivity.
  - split; [exists 103, [Sample.depositEvent]; by split_and! |].
    split; [exists 103, []; by split_and! | done].
  - done.
  - split; [exact Hc | exact Hq].
Defined.

(** ** Errors, idle passes and the end of the loops *)

Section LoopFacts.

Variable parseLog : Chain → Log → Parse.

Lemma endpointAt_in_pool i : (i < length bscRpcEndpoints)%nat → endpointAt i ∈ bscRpcEndpoints.
Proof.
  intros Hi. unfold endpointAt.
  destruct (lookup_lt_is_Some_2 bscRpcEndpoints i Hi) as [rpc Hrpc].
  rewrite Hrpc. simpl. by eapply list_elem_of_lookup_2.
Qed.

(** What a pass does to the endpoint pool. *)
Lemma bsc_step_index env ce r :
  let run := monitorBscDepositsStep parseLog env ce r in
  let next := ((currentBscRpcIndex r + 1) `mod` length bscRpcEndpoints)%nat in
  isRunning (store run) = isRunning r ∧
  ((currentBscRpcIndex (store run) = currentBscRpcIndex r ∧ connected (trace run) = []) ∨
   (∃ msg, rateLimitClass msg ∧
           (headAnswer env = Throws msg ∨ logsAnswer env = Throws msg) ∧
           currentBscRpcIndex (store run) = next ∧
           connected (trace run) = [endpointAt next] ∧
           outcome run = inr (ce + 1) ∧
           bscLastBlock (store run) = bscLastBlock r ∧
           stateManager (store run) = stateManager r)).
Proof.
  cbv zeta.
  destruct (headAnswer env) as [head | msg] eqn:Hh.
  - destruct (Z.lt_ge_cases (bscLastBlock r) head) as [Hlt | Hge].
    + destruct (logsAnswer env) as [events | msg] eqn:Hl.
      * destruct (bsc_step_ahead parseLog env ce r head events Hh Hlt Hl)
          as (_ & _ & _ & Hr & Hi & _ & _ & Hc).
        split; [done |]. by left.
      * destruct env as [ha la he]. simpl in Hh, Hl. subst ha la.
        assert (Hahead : (head >? bscLastBlock r) = true) by (apply Z.gtb_lt; lia).
        unfold monitorBscDepositsStep, getNextBscRpc, createBscProvider, rateLimitClass,
          trace, store, outcome.
        unfold_prog. cbn [fst snd headAnswer logsAnswer]. rewrite Hahead.
        cbn [fst snd headAnswer logsAnswer].
        destruct (isRateLimit msg || Str.includes msg "missing response") eqn:Hclass.
        -- split; [done |]. right. exists msg. split_and!; try done. by right.
        -- destruct (isNetwork msg); (split; [done |]); by left.
    + rewrite (bsc_step_idle parseLog env ce r head Hh Hge). split; [done |]. by left.
  - destruct env as [ha la he]. simpl in Hh. subst ha.
    unfold monitorBscDepositsStep, getNextBscRpc, createBscProvider, rateLimitClass,
      trace, store, outcome.
    unfold_prog. cbn [fst snd headAnswer logsAnswer].
    destruct (isRateLimit msg || Str.includes msg "missing response") eqn:Hclass.
    + split; [done |]. right. exists msg. split_and!; try done. by left.
    + destruct (isNetwork msg); (split; [done |]); by left.
Qed.

Lemma uc_step_index env r :
  let run := monitorUcBurnsStep env r in
  isRunning (store run) = isRunning r ∧
  currentBscRpcIndex (store run) = currentBscRpcIndex r ∧
  connected (trace run) = [].
Proof.
  cbv zeta.
  destruct (headAnswer env) as [head | msg] eqn:Hh.
  - destruct (Z.lt_ge_cases (ucLastBlock r) head) as [Hlt | Hge].
    + destruct (logsAnswer env) as [events | msg] eqn:Hl.
      * destruct (uc_step_ahead env r head events Hh Hlt Hl)
          as (_ & _ & _ & Hr & Hi & _ & _ & Hc).
        done.
      * destruct env as [ha la he]. simpl in Hh, Hl. subst ha la.
        assert (Hahead : (head >? ucLastBlock r) = true) by (apply Z.gtb_lt; lia).
        unfold monitorUcBurnsStep, trace, store, outcome.
        unfold_prog. cbn [fst snd headAnswer logsAnswer]. rewrite Hahead.
        cbn [fst snd headAnswer logsAnswer].
        destruct (isRateLimit msg); [done |]. by destruct (isNetwork msg).
    + destruct env as [ha la he]. simpl in Hh. subst ha.
      assert (Hahead : (head >? ucLastBlock r) = false).
      { rewrite Z.gtb_ltb. apply Z.ltb_ge. lia. }
      unfold monitorUcBurnsStep, trace, store, outcome.
      unfold_prog. cbn [fst snd headAnswer logsAnswer]. by rewrite Hahead.
  - destruct env as [ha la he]. simpl in Hh. subst ha.
    unfold monitorUcBurnsStep, trace, store, outcome.
    unfold_prog. cbn [fst snd headAnswer logsAnswer].
    destruct (isRateLimit msg); [done |]. by destruct (isNetwork msg).
Qed.

Lemma bsc_loop_pool envs : ∀ ce r,
  let run := monitorBscDeposits parseLog envs ce r in
  Forall (λ rpc, rpc ∈ bscRpcEndpoints) (connected (trace run)) ∧
  isRunning (store run) = isRunning r ∧
  ∃ n, outcome run = inr n.
Proof.
  induction envs as [| env envs IH]; intros ce r; cbv zeta.
  - split_and!; [by constructor | done | by exists ce].
  - destruct (isRunning r) eqn:Hrun;
      [| rewrite bsc_loop_stopped by done; split_and!;
         [by constructor | done | by exists ce]].
    destruct (bsc_step_returns parseLog env ce r) as [n Hn].
    destruct (bsc_step_index env ce r) as [Hr Hidx].
    unfold outcome, store, trace in Hn, Hr, Hidx.
    destruct (monitorBscDepositsStep parseLog env ce r) as [[t1 r1] o1] eqn:Hs.
    cbn [fst snd] in *. subst o1.
    specialize (IH n r1). cbv zeta in IH. unfold outcome, store, trace in IH.
    destruct (monitorBscDeposits parseLog envs n r1) as [[t2 r2] o2] eqn:Hloop.
    rewrite (bsc_loop_cons _ _ _ _ _ _ _ _ _ _ _ Hrun Hs Hloop).
    unfold outcome, store, trace. cbn [fst snd] in *.
    destruct IH as (IHp & IHr & IHo).
    split_and!; [| congruence | done].
    rewrite connected_app. apply Forall_app. split; [| done].
    destruct Hidx as [[_ ->] | (msg & _ & _ & _ & -> & _)]; [by constructor |].
    apply Forall_cons_2; [| apply Forall_nil_2]. apply endpointAt_in_pool.
    apply Nat.mod_upper_bound. done.
Qed.

Lemma uc_loop_pool envs : ∀ r,
  let run := monitorUcBurns envs r in
  connected (trace run) = [] ∧
  currentBscRpcIndex (store run) = currentBscRpcIndex r ∧
  isRunning (store run) = isRunning r ∧
  outcome run = inr tt.
Proof.
  induction envs as [| env envs IH]; intros r; cbv zeta.
  - done.
  - destruct (isRunning r) eqn:Hrun; [| by rewrite uc_loop_stopped by done].
    pose proof (uc_step_returns env r) as Hn.
    destruct (uc_step_index env r) as (Hr & Hi & Hc).
    unfold outcome, store, trace in Hn, Hr, Hi, Hc.
    destruct (monitorUcBurnsStep env r) as [[t1 r1] o1] eqn:Hs.
    cbn [fst snd] in *. subst o1.
    specialize (IH r1). cbv zeta in IH. unfold outcome, store, trace in IH.
    destruct (monitorUcBurns envs r1) as [[t2 r2] o2] eqn:Hloop.
    rewrite (uc_loop_cons _ _ _ _ _ _ _ _ Hrun Hs Hloop).
    unfold outcome, store, trace. cbn [fst snd] in *.
    destruct IH as (IHc & IHi & IHr & IHo).
    rewrite connected_app, Hc, IHc. split_and!; [done | congruence | congruence | done].
Qed.

Lemma bsc_loop_idle idle : ∀ env ce r msg,
  isRunning r = true →
  Forall (λ env, ∃ head, headAnswer env = Ok head ∧ head <= bscLastBlock r) idle →
  headAnswer env = Throws msg → rateLimitClass msg →
  let next := ((currentBscRpcIndex r + 1) `mod` length bscRpcEndpoints)%nat in
  monitorBscDeposits parseLog (idle ++ [env]) ce r =
    (concat ((λ _, [GetBlockNumber BSC; Sleep 5000]) <$> idle) ++
       [GetBlockNumber BSC; ConnectBsc (endpointAt next); Sleep (waitTime (ce + 1))],
     setRpcIndex next r, inr (ce + 1)).
Proof.
  induction idle as [| pass idle IH]; intros env ce r msg Hrun Hidle Hmsg Hclass; cbv zeta.
  - cbn [app fmap list_fmap concat].
    rewrite (bsc_loop_cons parseLog env [] ce r _ _ _ [] _ _ Hrun
               (rate_limited_step parseLog env ce r msg Hmsg Hclass) eq_refl).
    by rewrite app_nil_r.
  - apply Forall_cons in Hidle as [(head & Hh & Hle) Hidle].
    cbn [app fmap list_fmap concat].
    rewrite (bsc_loop_cons _ _ _ _ _ _ _ _ _ _ _ Hrun
               (bsc_step_idle parseLog pass ce r head Hh Hle)
               (IH env ce r msg Hrun Hidle Hmsg Hclass)).
    done.
Qed.

End LoopFacts.

(** X16: the BSC watcher leaves the endpoint pool alone unless one of its
    own two calls, the head poll or the event query, failed with an error
    of the rate-limit class: a pass that changes the index or reconnects
    had such a failure, counted it, and left the cursor where it was.
    Errors inside the handling of an event never rotate the pool. *)
Theorem endpoint_rotates_only_on_rate_limit (parseLog : Chain → Log → Parse)
    (env : IterationEnv) (ce : Z) (r : Relayer) :
  let run := monitorBscDepositsStep parseLog env ce r in
  currentBscRpcIndex (store run) ≠ currentBscRpcIndex r ∨ connected (trace run) ≠ [] →
  ∃ msg, rateLimitClass msg ∧
         (headAnswer env = Throws msg ∨ logsAnswer env = Throws msg) ∧
         outcome run = inr (ce + 1) ∧
         bscLastBlock (store run) = bscLastBlock r ∧
         stateManager (store run) = stateManager r.
Proof.
  intros run Hchanged.
  destruct (bsc_step_index parseLog env ce r) as [_ [[Hi Hc] | (msg & H1 & H2 & _ & _ & H3)]].
  - destruct Hchanged as [Hne | Hne]; by destruct Hne.
  - by exists msg.
Qed.

Lemma endpoint_rotates_only_on_rate_limit_witness :
  ∃ msg, rateLimitClass msg ∧
         (headAnswer Sample.rateLimited = Throws msg ∨
          logsAnswer Sample.rateLimited = Throws msg) ∧
         outcome (monitorBscDepositsStep Sample.parseLog Sample.rateLimited 0
                    Sample.relayer0) = inr (0 + 1) ∧
         bscLastBlock (store (monitorBscDepositsStep Sample.parseLog Sample.rateLimited 0
                                Sample.relayer0)) = bscLastBlock Sample.relayer0 ∧
         stateManager (store (monitorBscDepositsStep Sample.parseLog Sample.rateLimited 0
                                Sample.relayer0)) = stateManager Sample.relayer0.
Proof.
  apply (endpoint_rotates_only_on_rate_limit Sample.parseLog Sample.rateLimited 0
           Sample.relayer0).
  left. vm_compute. lia.
Defined.

(** X17: whatever index the relayer starts with, every endpoint the BSC
    watcher reconnects to over a whole run of its loop is one of the six
    of the pool; the UC watcher never reconnects and never moves the pool
    index. *)
Theorem watchers_reconnect_within_the_pool (parseLog : Chain → Log → Parse)
    (envs : list IterationEnv) (ce : Z) (r : Relayer) :
  Forall (λ rpc, rpc ∈ bscRpcEndpoints)
         (connected (trace (monitorBscDeposits parseLog envs ce r))) ∧
  connected (trace (monitorUcBurns envs r)) = [] ∧
  currentBscRpcIndex (store (monitorUcBurns envs r)) = currentBscRpcIndex r.
Proof.
  destruct (bsc_loop_pool parseLog envs ce r) as (Hp & _).
  destruct (uc_loop_pool envs r) as (Hc & Hi & _).
  done.
Qed.

(** X18: a pass that finds no new block neither resets nor raises the
    error count of the BSC watcher: after any number of such passes a
    rate-limit error is backed off as failure number [ce + 1], as if the
    idle passes had not happened.  (Only a block advance resets the
    count.) *)
Theorem idle_passes_keep_the_error_count (parseLog : Chain → Log → Parse)
    (idle : list IterationEnv) (env : IterationEnv) (ce : Z) (r : Relayer) (msg : string) :
  isRunning r = true →
  Forall (λ env, ∃ head, headAnswer env = Ok head ∧ head <= bscLastBlock r) idle →
  headAnswer env = Throws msg → rateLimitClass msg →
  let next := ((currentBscRpcIndex r + 1) `mod` length bscRpcEndpoints)%nat in
  monitorBscDeposits parseLog (idle ++ [env]) ce r =
    (concat ((λ _, [GetBlockNumber BSC; Sleep 5000]) <$> idle) ++
       [GetBlockNumber BSC; ConnectBsc (endpointAt next); Sleep (waitTime (ce + 1))],
     setRpcIndex next r, inr (ce + 1)).
Proof.
  intros Hrun Hidle Hmsg Hclass.
  by apply (bsc_loop_idle parseLog idle env ce r msg).
Qed.

Lemma idle_passes_keep_the_error_count_witness :
  trace (monitorBscDeposits Sample.parseLog
           [mkIter (Ok 100) (Ok []) (λ _, Sample.depositEnv);
            mkIter (Ok 99) (Ok []) (λ _, Sample.depositEnv);
            Sample.rateLimited] 1 Sample.relayer0) =
  [ GetBlockNumber BSC; Sleep 5000; GetBlockNumber BSC; Sleep 5000;
    GetBlockNumber BSC; ConnectBsc "https://bsc-dataseed2.binance.org"; Sleep 10000 ].
Proof.
  refine (f_equal trace
            (idle_passes_keep_the_error_count Sample.parseLog
               [mkIter (Ok 100) (Ok []) (λ _, Sample.depositEnv);
                mkIter (Ok 99) (Ok []) (λ _, Sample.depositEnv)]
               Sample.rateLimited 1 Sample.relayer0 "429 Too Many Requests" _ _ _ _)).
  - reflexivity.
  - apply Forall_cons_2; [exists 100; split; [reflexivity | simpl; lia] |].
    apply Forall_cons_2; [exists 99; split; [reflexivity | simpl; lia] |].
    apply Forall_nil_2.
  - reflexivity.
  - reflexivity.
Defined.

(** X19: the loops end by the flag and by nothing else.  After [stop]
    neither watcher performs a single call; and no pass of a watcher,
    whatever the chains answer, clears the flag or throws out of the
    loop. *)
Theorem loops_end_only_when_stopped (parseLog : Chain → Log → Parse)
    (envs : list IterationEnv) (ce : Z) (r : Relayer) :
  monitorBscDeposits parseLog envs ce (store (stop r)) = ([], store (stop r), inr ce) ∧
  monitorUcBurns envs (store (stop r)) = ([], store (stop r), inr tt) ∧
  isRunning (store (monitorBscDeposits parseLog envs ce r)) = isRunning r ∧
  (∃ n, outcome (monitorBscDeposits parseLog envs ce r) = inr n) ∧
  isRunning (store (monitorUcBurns envs r)) = isRunning r ∧
  outcome (monitorUcBurns envs r) = inr tt.
Proof.
  destruct (bsc_loop_pool parseLog envs ce r) as (_ & Hr & Ho).
  destruct (uc_loop_pool envs r) as (_ & _ & Hr' & Ho').
  split_and!; try done.
  - by apply bsc_loop_stopped.
  - by apply uc_loop_stopped.
Qed.

(** ** Start-up *)

(** X20: what was persisted as processed is not relayed again after a
    restart: an event whose id is in the processed list of the loaded state
    is skipped by the watcher's handler of the relayer that [initialize]
    returns, without a single call to either chain. *)
Theorem restart_skips_persisted_ids (parseLog : Chain → Log → Parse) (cfg : Config)
    (bscHead ucHead : Rpc Z) (st : State) (d : Direction) (env : PipelineEnv)
    (event : EventLog) (r : Relayer) :
  outcome (initialize cfg bscHead ucHead st tt) = inr r →
  eventId (evArgs event) ∈ processedOf d st →
  handleEvent parseLog d env event r = ([], r, inr tt).
Proof.
  unfold initialize, outcome. unfold_prog. intros Hinit Hin.
  assert (Hset : eventId (evArgs event) ∈ processedSetOf d r).
  { run_cases; destruct d; simpl in *; by apply elem_of_list_to_set. }
  clear Hinit.
  destruct d; simpl in *.
  - unfold handleBscDeposit. unfold_prog. by rewrite decide_True.
  - unfold handleUcBurn. unfold_prog. by rewrite decide_True.
Qed.

Lemma restart_skips_persisted_ids_witness :
  let st := mkState (Some 100) (Some 100) ["0xid1"] [] None in
  ∃ r, outcome (initialize (mkConfig Latest Latest None) (Ok 200) (Ok 200) st tt) = inr r ∧
       handleBscDeposit Sample.parseLog Sample.depositEnv Sample.depositEvent r =
         ([], r, inr tt).
Proof.
  eexists. split; [reflexivity |].
  apply (restart_skips_persisted_ids Sample.parseLog (mkConfig Latest Latest None)
           (Ok 200) (Ok 200) (mkState (Some 100) (Some 100) ["0xid1"] [] None)
           DirDeposit Sample.depositEnv Sample.depositEvent).
  - reflexivity.
  - simpl. apply list_elem_of_here.
Defined.

(** X21: where the watchers start, for a loaded state of the shape
    [saveState] writes.  [initialize] asks a chain for its head exactly when
    the wallets and contracts could be built, the state holds no cursor for
    the chain, or the cursor 0, and the configuration says 'latest'; a saved
    cursor other than 0 is resumed from whatever the configuration says,
    and a saved cursor 0 is treated as none.  An error of the set-up is
    thrown again before any head is asked, and so is the error of a head
    request that had to be made. *)
Theorem initialize_start_cursors (cfg : Config) (bscHead ucHead : Rpc Z) (st : State) :
  let run := initialize cfg bscHead ucHead st tt in
  (GetBlockNumber BSC ∈ trace run ↔
     setupError cfg = None ∧
     savedCursor (lastBscBlock st) = None ∧ startBlockBsc cfg = Latest) ∧
  (∀ r, outcome run = inr r →
        stateManager r = st ∧ isRunning r = false ∧ currentBscRpcIndex r = 0%nat ∧
        (∀ b, lastBscBlock st = Some b → b ≠ 0 → bscLastBlock r = b) ∧
        (∀ u, lastUcBlock st = Some u → u ≠ 0 → ucLastBlock r = u) ∧
        (∀ head, lastBscBlock st = Some 0 → startBlockBsc cfg = Latest →
                 bscHead = Ok head → bscLastBlock r = head)) ∧
  (∀ error, setupError cfg = Some error →
            run = ([ConnectBsc (endpointAt 0)], tt, inl error)) ∧
  (∀ message, setupError cfg = None → savedCursor (lastBscBlock st) = None →
              startBlockBsc cfg = Latest → bscHead = Throws message →
              run = ([ConnectBsc (endpointAt 0); GetBlockNumber BSC], tt, inl message)).
Proof.
  destruct cfg as [cb cu se]. destruct st as [lb lu pd pb th].
  unfold initialize, savedCursor, trace, outcome. unfold_prog. simpl.
  split_and!.
  - destruct se as [e |]; simpl;
      [split; [intros Hin | by intros [? ?]];
       apply elem_of_cons in Hin as [Hin | Hin]; [discriminate Hin |];
       by apply elem_of_nil in Hin |].
    destruct lb as [b |]; [destruct (Z.eqb_spec b 0) |];
      destruct cb; run_cases; (split; [intros Hin | intros (? & ? & ?)]); try done;
      first [ by repeat constructor
            | repeat (apply elem_of_cons in Hin as [Hin | Hin]; [discriminate Hin |]);
              by apply elem_of_nil in Hin ].
  - intros r Hr. destruct se as [e |]; simpl in Hr; [done |].
    destruct lb as [b |]; [destruct (Z.eqb_spec b 0) |];
      (destruct lu as [u |]; [destruct (Z.eqb_spec u 0) |]);
      simpl in Hr; run_cases; simplify_eq; simpl; split_and!; try done;
      intros; simplify_eq; done.
  - by intros error ->.
  - intros message -> Hsaved -> ->. simpl.
    destruct lb as [b |]; [destruct (Z.eqb_spec b 0); [| done] |]; done.
Qed.

Lemma initialize_start_cursors_witness :
  initialize (mkConfig Latest Latest None) (Throws "timeout") (Ok 200)
             StateManager.freshState tt =
    ([ConnectBsc (endpointAt 0); GetBlockNumber BSC], tt, inl "timeout").
Proof.
  exact (proj2 (proj2 (proj2 (initialize_start_cursors (mkConfig Latest Latest None)
                                (Throws "timeout") (Ok 200) StateManager.freshState)))
           "timeout" eq_refl eq_refl eq_refl eq_refl).
Defined.

(** ** Routing *)

Section RouterFacts.

Variable JSON_parse : string → option JsVal.
Variable parseLog : Chain → Log → Parse.

Lemma append_snoc cur a s : (cur +:+ String a "") +:+ s = cur +:+ String a s.
Proof.
  induction cur as [| c cur IH]; [done |].
  change (String c ((cur +:+ String a "") +:+ s) = String c (cur +:+ String a s)).
  by rewrite IH.
Qed.

Lemma append_empty_r s : s +:+ "" = s.
Proof.
  induction s as [| c s IH]; [done |].
  change (String c (s +:+ "") = String c s). by rewrite IH.
Qed.

(** A text without the separator is one piece. *)
Lemma splitOnGo_one_piece sep s : ∀ cur,
  Str.includes s sep = false → splitOnGo sep 0 cur s = [cur +:+ s].
Proof.
  induction s as [| a s IH]; intros cur Hinc.
  - simpl. by rewrite append_empty_r.
  - cbn [Str.includes] in Hinc. cbn [splitOnGo].
    destruct (Str.startsWith sep (String a s)); [done |].
    rewrite IH by done. by rewrite append_snoc.
Qed.

Lemma splitOn_prefix id :
  Str.includes id txHashesPrefix = false →
  splitOn txHashesPrefix (txHashesPrefix +:+ id) = [""; id].
Proof.
  intros Hinc. unfold splitOn.
  change (txHashesPrefix +:+ id)
    with (String "/" (String "a" (String "p" (String "i" (String "/" (String "t"
         (String "x" (String "-" (String "h" (String "a" (String "s" (String "h"
         (String "e" (String "s" (String "/" id))))))))))))))).
  unfold txHashesPrefix at 1. cbn. f_equal.
  by apply (splitOnGo_one_piece _ id "").
Qed.

End RouterFacts.

#[local] Arguments jsGet : simpl never.

Section RouterRuns.

Variable JSON_parse : string → option JsVal.
Variable parseLog : Chain → Log → Parse.

Lemma onProcessDeposit_relayer env body srv :
  relayer (store (onProcessDeposit JSON_parse parseLog env body srv)) = relayer srv.
Proof.
  unfold onProcessDeposit, store. unfold_prog.
  destruct (extractTxHash JSON_parse body) as [txHash |]; [| done].
  destruct (truthy txHash); [| done].
  by destruct (processDepositByTxHash parseLog env txHash (depositModule srv))
    as [[t s] [e | res]].
Qed.

Lemma onProcessWithdrawal_relayer env body srv :
  relayer (store (onProcessWithdrawal JSON_parse parseLog env body srv)) = relayer srv.
Proof.
  unfold onProcessWithdrawal, store. unfold_prog.
  destruct (extractTxHash JSON_parse body) as [txHash |]; [| done].
  destruct (truthy txHash); [| done].
  by destruct (processWithdrawalByTxHash parseLog env txHash (withdrawalModule srv))
    as [[t s] [e | res]].
Qed.

Ltac plain_reply := eexists; split; [reflexivity |]; split; [auto | done].

(** What a route other than the two POST routes answers, as a function of
    the relayer's state manager alone. *)
Lemma read_only_route env req srv :
  isProcessRoute req = false →
  ∃ reply, handleRequest JSON_parse parseLog env req srv = ([], srv, inr reply) ∧
           (replyStatus reply = 200 ∨ replyStatus reply = 400 ∨ replyStatus reply = 404) ∧
           ∀ env' srv', relayer srv' = relayer srv →
                        outcome (handleRequest JSON_parse parseLog env' req srv') = inr reply.
Proof.
  destruct req as [m u b]. destruct srv as [[pd pb run idx bl ul st] dm wm].
  unfold handleRequest, isProcessRoute, inRelayerStateManager, getAllTransactionHashes,
    StateManager.getTransactionHashes, outcome.
  unfold_prog. cbn [method url body relayer stateManager].
  intros Hroute.
  assert (Hany : ∀ srv' : Server,
            relayer srv' = mkRelayer pd pb run idx bl ul st →
            stateManager (relayer srv') = st) by (by intros srv' ->).
  destruct (String.eqb m "OPTIONS"); [plain_reply |].
  destruct (String.eqb u "/health" || String.eqb u "/"); [plain_reply |].
  destruct (Str.startsWith txHashesPrefix u).
  { destruct (splitOn txHashesPrefix u !! 1%nat) as [txId |]; [| plain_reply].
    destruct (String.eqb txId ""); [plain_reply |].
    simpl. destruct (transactionHashes st) as [hashes |] eqn:Hth; simpl.
    - remember (jsGet hashes txId) as found eqn:Hfound.
      destruct (foundTruthy found) eqn:Hf; simpl; rewrite ?Hf;
        (eexists; split; [reflexivity |]; split; [simpl; auto |]);
        intros env' srv' Hsrv; rewrite (Hany srv' Hsrv), Hth; simpl;
        rewrite <- Hfound, ?Hf; simpl; by rewrite ?Hf.
    - eexists; split; [reflexivity |]; split; [auto |].
      intros env' srv' Hsrv. by rewrite (Hany srv' Hsrv), Hth. }
  destruct (String.eqb u "/api/test-body" && String.eqb m "POST"); [plain_reply |].
  destruct (String.eqb u "/api/process-deposit" && String.eqb m "POST") eqn:Hd.
  { apply andb_true_iff in Hd as [Hu Hm]. by rewrite Hu, Hm in Hroute. }
  destruct (String.eqb u "/api/process-withdrawal" && String.eqb m "POST") eqn:Hw.
  { apply andb_true_iff in Hw as [Hu Hm]. rewrite Hu, Hm in Hroute.
    by rewrite orb_true_r in Hroute. }
  destruct (String.eqb u "/api/tx-hashes"); [| plain_reply].
  simpl. eexists; split; [reflexivity |]; split; [auto |].
  intros env' srv' Hsrv. by rewrite (Hany srv' Hsrv).
Qed.

Lemma handleRequest_relayer env req srv :
  relayer (store (handleRequest JSON_parse parseLog env req srv)) = relayer srv.
Proof.
  destruct (isProcessRoute req) eqn:Hroute.
  - destruct req as [m u b]. unfold isProcessRoute in Hroute. simpl in Hroute.
    apply andb_true_iff in Hroute as [Hm Hu]. apply String.eqb_eq in Hm as ->.
    apply orb_true_iff in Hu as [Hu | Hu]; apply String.eqb_eq in Hu as ->.
    + unfold handleRequest, store. simpl. unfold_prog.
      pose proof (onProcessDeposit_relayer env b srv) as Hd. unfold store in Hd.
      by destruct (onProcessDeposit JSON_parse parseLog env b srv) as [[t s] [e | resp]].
    + unfold handleRequest, store. simpl. unfold_prog.
      pose proof (onProcessWithdrawal_relayer env b srv) as Hd. unfold store in Hd.
      by destruct (onProcessWithdrawal JSON_parse parseLog env b srv) as [[t s] [e | resp]].
  - destruct (read_only_route env req srv Hroute) as (reply & -> & _). done.
Qed.

End RouterRuns.

(** X22: every route but the two POST routes that start a pipeline is
    read-only: the request performs no effect, leaves the server's state as
    it was, never throws, and is answered 200, 400 or 404.  That holds for
    OPTIONS on any URL, for a GET on the URL of a POST route and for any
    unknown URL. *)
Theorem read_only_routes_change_nothing (JSON_parse : string → option JsVal)
    (parseLog : Chain → Log → Parse) (env : PipelineEnv) (req : Request) (srv : Server) :
  isProcessRoute req = false →
  ∃ reply, handleRequest JSON_parse parseLog env req srv = ([], srv, inr reply) ∧
           (replyStatus reply = 200 ∨ replyStatus reply = 400 ∨ replyStatus reply = 404).
Proof.
  intros Hroute.
  destruct (read_only_route JSON_parse parseLog env req srv Hroute) as (reply & Hrun & Hst & _).
  by exists reply.
Qed.

Lemma read_only_routes_change_nothing_witness :
  ∃ reply,
    handleRequest Sample.JSON_parse Sample.parseLog Sample.depositEnv
      (mkRequest "GET" "/api/process-deposit" Sample.goodBody) Sample.server0 =
      ([], Sample.server0, inr reply) ∧
    (replyStatus reply = 200 ∨ replyStatus reply = 400 ∨ replyStatus reply = 404).
Proof.
  apply (read_only_routes_change_nothing Sample.JSON_parse Sample.parseLog
           Sample.depositEnv (mkRequest "GET" "/api/process-deposit" Sample.goodBody)
           Sample.server0).
  reflexivity.
Defined.

(** X23: GET /api/tx-hashes/<id>, for a non-empty id, reads the property
    <id> of the transaction-hash object of the relayer's state manager, in
    memory, and answers 200 with whatever truthy value it finds, 404
    'Transaction not found' otherwise; the state managers of the two
    on-demand modules are not consulted.  What it finds is the entry stored
    under the id if there is one.  Without one, and with the prototype of
    the object untouched, the id 'constructor', 'toString' or another
    function of [Object.prototype] finds that function and '__proto__' finds
    [Object.prototype], so these are answered 200 as well; any other id is
    answered 404. *)
Theorem tx_hashes_lookup_reads_the_relayer_state (JSON_parse : string → option JsVal)
    (parseLog : Chain → Log → Parse) (env : PipelineEnv) (m id b : string) (srv : Server) :
  m ≠ "OPTIONS" → id ≠ "" → Str.includes id txHashesPrefix = false →
  let found := match transactionHashes (stateManager (relayer srv)) with
               | Some obj => jsGet obj id
               | None => NotFound
               end in
  handleRequest JSON_parse parseLog env (mkRequest m (txHashesPrefix +:+ id) b) srv =
    ([], srv,
     inr (if foundTruthy found then mkReply 200 (BTxHashes found)
          else mkReply 404 (BError "Transaction not found"))) ∧
  (∀ obj, transactionHashes (stateManager (relayer srv)) = Some obj →
     (∀ h, ownEntries obj !! id = Some h → found = FoundEntry h) ∧
     (ownEntries obj !! id = None → protoEntry obj = None →
      (id ∈ objectPrototypeMethods → found = FoundMethod id) ∧
      (id = "__proto__" → found = FoundObjectPrototype (objectPrototypeDest obj)) ∧
      (id ∉ objectPrototypeMethods → id ≠ "__proto__" →
       id ≠ "destTxHash" ∨ objectPrototypeDest obj = None → found = NotFound))).
Proof.
  intros Hm Hid Hinc found. split.
  - subst found. destruct srv as [[pd pb run idx bl ul st] dm wm].
    unfold handleRequest, inRelayerStateManager, StateManager.getTransactionHashes.
    unfold_prog. cbn [method url body relayer stateManager].
    rewrite (proj2 (String.eqb_neq m "OPTIONS") Hm).
    rewrite (splitOn_prefix id Hinc). cbn [lookup list_lookup].
    rewrite (proj2 (String.eqb_neq id "") Hid).
    change (txHashesPrefix +:+ id)
      with (String "/" (String "a" (String "p" (String "i" (String "/" (String "t"
           (String "x" (String "-" (String "h" (String "a" (String "s" (String "h"
           (String "e" (String "s" (String "/" id))))))))))))))).
    unfold txHashesPrefix. cbn.
    destruct (transactionHashes st) as [hashes |]; cbn; [| done].
    generalize (jsGet hashes id) as found. intros found.
    by destruct (foundTruthy found) eqn:Hf; simpl; rewrite ?Hf.
  - intros obj Hobj. subst found. rewrite Hobj. unfold jsGet, objectPrototypeField.
    split.
    + by intros h ->.
    + intros -> ->. split_and!.
      * intros Hin.
        destruct (String.eqb_spec id "__proto__") as [-> | _].
        -- exfalso. revert Hin. apply (bool_decide_unpack _). by vm_compute.
        -- by rewrite bool_decide_eq_true_2.
      * by intros ->.
      * intros Hnot Hproto Hdest.
        rewrite (proj2 (String.eqb_neq id "__proto__") Hproto).
        rewrite bool_decide_eq_false_2 by done.
        destruct Hdest as [Hdest | ->].
        -- by rewrite (proj2 (String.eqb_neq id "destTxHash") Hdest).
        -- by destruct (String.eqb id "destTxHash").
Qed.

Lemma tx_hashes_lookup_reads_the_relayer_state_witness :
  handleRequest Sample.JSON_parse Sample.parseLog Sample.depositEnv
    (mkRequest "GET" (txHashesPrefix +:+ "constructor") "") Sample.server0 =
    ([], Sample.server0, inr (mkReply 200 (BTxHashes (FoundMethod "constructor")))).
Proof.
  refine (proj1 (tx_hashes_lookup_reads_the_relayer_state Sample.JSON_parse
                   Sample.parseLog Sample.depositEnv "GET" "constructor" ""
                   Sample.server0 _ _ _)).
  - discriminate.
  - discriminate.
  - reflexivity.
Defined.

(** X24: what the on-demand routes process is never served by the lookup
    routes.  No request changes the relayer object, and the answer of a
    read-only route depends on the relayer object alone; so after any
    request, a completed deposit or withdrawal included, a lookup is
    answered exactly as it would have been before it. *)
Theorem lookups_ignore_on_demand_processing (JSON_parse : string → option JsVal)
    (parseLog : Chain → Log → Parse) (env env' : PipelineEnv) (req req' : Request)
    (srv : Server) :
  isProcessRoute req' = false →
  let after := store (handleRequest JSON_parse parseLog env req srv) in
  relayer after = relayer srv ∧
  outcome (handleRequest JSON_parse parseLog env' req' after) =
    outcome (handleRequest JSON_parse parseLog env' req' srv).
Proof.
  intros Hroute after.
  assert (Hrel : relayer after = relayer srv) by apply handleRequest_relayer.
  split; [done |].
  destruct (read_only_route JSON_parse parseLog env' req' srv Hroute) as (reply & _ & _ & Hdep).
  by rewrite (Hdep env' after Hrel), (Hdep env' srv eq_refl).
Qed.

Lemma lookups_ignore_on_demand_processing_witness :
  let after := store (handleRequest Sample.JSON_parse Sample.parseLog Sample.depositEnv
                        (mkRequest "POST" "/api/process-deposit" Sample.goodBody)
                        Sample.server0) in
  is_Some (default ∅ (transactionHashes (depositModule after)) !! "0xid1") ∧
  outcome (handleRequest Sample.JSON_parse Sample.parseLog Sample.depositEnv
             (mkRequest "GET" (txHashesPrefix +:+ "0xid1") "") after) =
    inr (mkReply 404 (BError "Transaction not found")).
Proof.
  split.
  - vm_compute. by eexists.
  - rewrite (proj2 (lookups_ignore_on_demand_processing Sample.JSON_parse Sample.parseLog
                      Sample.depositEnv Sample.depositEnv
                      (mkRequest "POST" "/api/process-deposit" Sample.goodBody)
                      (mkRequest "GET" (txHashesPrefix +:+ "0xid1") "")
                      Sample.server0 eq_refl)).
    reflexivity.
Defined.

(** ** The processed sets in memory *)

Section MemoryFacts.

Variable parseLog : Chain → Log → Parse.

Lemma handleEvent_grows d env event r :
  let r' := store (handleEvent parseLog d env event r) in
  processedDepositsSet r ⊆ processedDepositsSet r' ∧
  processedBurnsSet r ⊆ processedBurnsSet r'.
Proof.
  destruct env as [ra h1 h2 sa wa].
  destruct d; simpl; unfold store.
  - unfold handleBscDeposit. unfold_prog. run_cases; simpl; split; set_solver.
  - unfold handleUcBurn. unfold_prog. run_cases; simpl; split; set_solver.
Qed.

Lemma forEach_grows {A} (body : A → M Relayer unit) (xs : list A) :
  (∀ x r, processedDepositsSet r ⊆ processedDepositsSet (store (body x r)) ∧
          processedBurnsSet r ⊆ processedBurnsSet (store (body x r))) →
  ∀ r, processedDepositsSet r ⊆ processedDepositsSet (store (forEach body xs r)) ∧
       processedBurnsSet r ⊆ processedBurnsSet (store (forEach body xs r)).
Proof.
  intros Hbody. induction xs as [| x xs IH]; intros r; simpl; [done |].
  unfold bind. specialize (Hbody x r). unfold store in *.
  destruct (body x r) as [[t1 r1] [e | []]]; simpl in *; [done |].
  specialize (IH r1). destruct (forEach body xs r1) as [[t2 r2] o2]. simpl in *.
  destruct Hbody, IH. split; by etrans.
Qed.

Lemma bsc_step_grows env ce r :
  let r' := store (monitorBscDepositsStep parseLog env ce r) in
  processedDepositsSet r ⊆ processedDepositsSet r' ∧
  processedBurnsSet r ⊆ processedBurnsSet r'.
Proof.
  destruct env as [ha la he]. cbv zeta.
  unfold monitorBscDepositsStep, getNextBscRpc, createBscProvider, store.
  destruct ha as [head | msg]; [destruct (head >? bscLastBlock r) eqn:Hahead;
                                [destruct la as [events | msg] |] |].
  - pose proof (forEach_grows
                  (λ ie, handleBscDeposit parseLog (he ie.1) ie.2) (indexed events)
                  (λ x r0, handleEvent_grows DirDeposit _ _ r0) r) as Hg.
    unfold store in Hg. unfold_prog. simpl. rewrite Hahead. simpl.
    destruct (forEach _ (indexed events) r) as [[t1 r1] [e | []]]; simpl in *.
    + by run_cases.
    + by destruct (head - bscLastBlock r <=? 1).
  - unfold_prog. simpl. rewrite Hahead. simpl. by run_cases.
  - unfold_prog. simpl. by rewrite Hahead.
  - unfold_prog. simpl. by run_cases.
Qed.

Lemma uc_step_grows env r :
  let r' := store (monitorUcBurnsStep env r) in
  processedDepositsSet r ⊆ processedDepositsSet r' ∧
  processedBurnsSet r ⊆ processedBurnsSet r'.
Proof.
  destruct env as [ha la he]. cbv zeta.
  unfold monitorUcBurnsStep, store.
  destruct ha as [head | msg]; [destruct (head >? ucLastBlock r) eqn:Hahead;
                                [destruct la as [events | msg] |] |].
  - pose proof (forEach_grows
                  (λ ie, handleUcBurn (he ie.1) ie.2) (indexed events)
                  (λ x r0, handleEvent_grows DirBurn _ _ r0) r) as Hg.
    unfold store in Hg. unfold_prog. simpl. rewrite Hahead. simpl.
    destruct (forEach _ (indexed events) r) as [[t1 r1] [e | []]]; simpl in *.
    + by run_cases.
    + by destruct (head - ucLastBlock r <=? 1).
  - unfold_prog. simpl. rewrite Hahead. simpl. by run_cases.
  - unfold_prog. simpl. by rewrite Hahead.
  - unfold_prog. simpl. by run_cases.
Qed.

Lemma bsc_loop_grows envs : ∀ ce r,
  let r' := store (monitorBscDeposits parseLog envs ce r) in
  processedDepositsSet r ⊆ processedDepositsSet r' ∧
  processedBurnsSet r ⊆ processedBurnsSet r'.
Proof.
  induction envs as [| env envs IH]; intros ce r; cbv zeta; [done |].
  destruct (isRunning r) eqn:Hrun; [| by rewrite bsc_loop_stopped by done].
  destruct (bsc_step_returns parseLog env ce r) as [n Hn].
  pose proof (bsc_step_grows env ce r) as Hg.
  unfold outcome, store in Hn, Hg.
  destruct (monitorBscDepositsStep parseLog env ce r) as [[t1 r1] o1] eqn:Hs.
  cbn [fst snd] in *. subst o1.
  specialize (IH n r1). cbv zeta in IH. unfold store in IH.
  destruct (monitorBscDeposits parseLog envs n r1) as [[t2 r2] o2] eqn:Hloop.
  rewrite (bsc_loop_cons _ _ _ _ _ _ _ _ _ _ _ Hrun Hs Hloop).
  unfold store. cbn [fst snd] in *.
  destruct Hg, IH. split; by etrans.
Qed.

Lemma uc_loop_grows envs : ∀ r,
  let r' := store (monitorUcBurns envs r) in
  processedDepositsSet r ⊆ processedDepositsSet r' ∧
  processedBurnsSet r ⊆ processedBurnsSet r'.
Proof.
  induction envs as [| env envs IH]; intros r; cbv zeta; [done |].
  destruct (isRunning r) eqn:Hrun; [| by rewrite uc_loop_stopped by done].
  pose proof (uc_step_returns env r) as Hn.
  pose proof (uc_step_grows env r) as Hg.
  unfold outcome, store in Hn, Hg.
  destruct (monitorUcBurnsStep env r) as [[t1 r1] o1] eqn:Hs.
  cbn [fst snd] in *. subst o1.
  specialize (IH r1). cbv zeta in IH. unfold store in IH.
  destruct (monitorUcBurns envs r1) as [[t2 r2] o2] eqn:Hloop.
  rewrite (uc_loop_cons _ _ _ _ _ _ _ _ Hrun Hs Hloop).
  unfold store. cbn [fst snd] in *.
  destruct Hg, IH. split; by etrans.
Qed.

End MemoryFacts.

(** X25: the processed sets the watchers check are kept in memory without
    a bound: over any run of either loop they only grow, no id ever leaves
    them, while the lists of the state file are cut to their last 10000
    entries.  So an id that a watcher has handled stays skipped for as long
    as the process lives. *)
Theorem in_memory_sets_only_grow (parseLog : Chain → Log → Parse)
    (envs : list IterationEnv) (ce : Z) (r : Relayer) (d : Direction) (id : string) :
  id ∈ processedSetOf d r →
  id ∈ processedSetOf d (store (monitorBscDeposits parseLog envs ce r)) ∧
  id ∈ processedSetOf d (store (monitorUcBurns envs r)).
Proof.
  intros Hin.
  destruct (bsc_loop_grows parseLog envs ce r) as [Hd Hb].
  destruct (uc_loop_grows parseLog envs r) as [Hd' Hb'].
  destruct d; simpl in *; split; set_solver.
Qed.

Lemma in_memory_sets_only_grow_witness :
  "0xid1" ∈ processedDepositsSet
              (store (monitorBscDeposits Sample.parseLog
                        [Sample.iteration; Sample.rateLimited] 0
                        (markDeposit "0xid1" Sample.relayer0))).
Proof.
  refine (proj1 (in_memory_sets_only_grow Sample.parseLog
                   [Sample.iteration; Sample.rateLimited] 0
                   (markDeposit "0xid1" Sample.relayer0) DirDeposit "0xid1" _)).
  simpl. apply elem_of_union_l. by apply elem_of_singleton.
Defined.
